(** * Shopping list: the data-transformation core

    A shallow embedding of the transformation routines of
    [weekly_shopping_list_web_app_react.jsx]: the CSV codec ([toCSV],
    [parseCSV]), the category normalizer ([normalizeCategory]), the two
    producers of item records ([importCSV], [handlePaste]) and the
    consolidator ([consolidateDuplicates]).

    Modelling conventions.
    - A JavaScript string is a [string]: a sequence of 8-bit code units,
      read as the Latin-1 range of UTF-16.  The built-ins used by the
      program ([trim], [toLowerCase], [split], [join], [replaceAll], the
      regular expressions) are closed on that range and are modelled on
      it in full.
    - An optional field ([quantity?: string]) is an [option]; [None] is
      JavaScript's [undefined].
    - A plain object used as a string map ([Record<string, string>]) and
      the [Map] of the consolidator are association lists in insertion
      order.
    - The state of the React component (the item collection) is passed
      explicitly; [uid()] and [Date.now()] are read from a supply indexed
      by the number of records created so far.
    - Numbers ([parseFloat], [isNaN], [+], [String]) are an interface,
      [NumberRuntime], with the IEEE 754 binary64 instance [ieee754]. *)

From Stdlib Require Import String Ascii List ZArith Bool Arith Lia.
From Stdlib Require Import DecimalString.
From Stdlib Require Import Floats.PrimFloat Floats.SpecFloat Floats.FloatOps.
Import ListNotations.
Open Scope list_scope.
Open Scope string_scope.

(** ** Characters and strings *)

Definition dquote : ascii := "034"%char.
Definition LF : ascii := "010"%char.
Definition CR : ascii := "013"%char.

(** The string made of one code unit. *)
Definition str1 (c : ascii) : string := String c "".

(** [LineTerminator] of ECMAScript, on the Latin-1 range. *)
Definition is_line_terminator (c : ascii) : bool :=
  Ascii.eqb c LF || Ascii.eqb c CR.

(** [WhiteSpace] and [LineTerminator] of ECMAScript, on the Latin-1 range:
    TAB, LF, VT, FF, CR, SP and NBSP.  It is the set stripped by [trim] and
    matched by the regular expression class [\s]. *)
Definition is_ws (c : ascii) : bool :=
  Ascii.eqb c "009" || Ascii.eqb c "010" || Ascii.eqb c "011" ||
  Ascii.eqb c "012" || Ascii.eqb c "013" || Ascii.eqb c " " ||
  Ascii.eqb c "160".

Definition is_digit (c : ascii) : bool :=
  let n := nat_of_ascii c in ((48 <=? n) && (n <=? 57))%nat.

Definition is_alpha (c : ascii) : bool :=
  let n := nat_of_ascii c in
  (((65 <=? n) && (n <=? 90)) || ((97 <=? n) && (n <=? 122)))%nat.

(** [toLowerCase] on one code unit of the Latin-1 range: A-Z and the
    accented capitals U+00C0-U+00DE (but the multiplication sign U+00D7)
    move up by 32. *)
Definition lower_char (c : ascii) : ascii :=
  let n := nat_of_ascii c in
  if (((65 <=? n) && (n <=? 90)) ||
      ((192 <=? n) && (n <=? 222) && negb (n =? 215)))%nat
  then ascii_of_nat (n + 32) else c.

Fixpoint toLowerCase (s : string) : string :=
  match s with
  | "" => ""
  | String c s' => String (lower_char c) (toLowerCase s')
  end.

Fixpoint all_chars (p : ascii -> bool) (s : string) : bool :=
  match s with
  | "" => true
  | String c s' => p c && all_chars p s'
  end.

Fixpoint trimStart (s : string) : string :=
  match s with
  | "" => ""
  | String c s' => if is_ws c then trimStart s' else s
  end.

Fixpoint trimEnd (s : string) : string :=
  match s with
  | "" => ""
  | String c s' =>
      match trimEnd s' with
      | "" => if is_ws c then "" else str1 c
      | r => String c r
      end
  end.

Definition trim (s : string) : string := trimEnd (trimStart s).

(** Truthiness of a string: every string but the empty one. *)
Definition nonempty (s : string) : bool :=
  match s with "" => false | _ => true end.

(** Truthiness of an optional string: [undefined] and the empty string are
    falsy. *)
Definition truthy (o : option string) : bool :=
  match o with Some s => nonempty s | None => false end.

(** [a || b] on optional strings. *)
Definition or_else (a b : option string) : option string :=
  if truthy a then a else b.

(** [a ?? d]: the default replaces [undefined] only. *)
Definition nullish (a : option string) (d : string) : string :=
  match a with Some s => s | None => d end.

(** [a || d] where the last operand is a string literal. *)
Definition or_default (a : option string) (d : string) : string :=
  match a with
  | Some s => if nonempty s then s else d
  | None => d
  end.

(** [s.replaceAll(c, r)] for a one-character pattern. *)
Fixpoint replaceAll (c : ascii) (r : string) (s : string) : string :=
  match s with
  | "" => ""
  | String d s' =>
      if Ascii.eqb d c then r ++ replaceAll c r s'
      else String d (replaceAll c r s')
  end.

(** [s.split(c)] for a one-character separator: always at least one
    piece. *)
Fixpoint split_on (c : ascii) (s : string) : list string :=
  match s with
  | "" => [""]
  | String d s' =>
      if Ascii.eqb d c then "" :: split_on c s'
      else match split_on c s' with
           | p :: ps => String d p :: ps
           | [] => [str1 d]
           end
  end.

(** [text.split(/\r?\n/)]: a line feed, with the carriage return before it
    when there is one, separates two pieces. *)
Fixpoint split_lines (s : string) : list string :=
  match s with
  | "" => [""]
  | String c s' =>
      if Ascii.eqb c LF then "" :: split_lines s'
      else
        match s' with
        | String d s'' =>
            if Ascii.eqb c CR && Ascii.eqb d LF then "" :: split_lines s''
            else match split_lines s' with
                 | p :: ps => String c p :: ps
                 | [] => [str1 c]
                 end
        | "" => [str1 c]
        end
  end.

(** ** Regular expressions

    The fragment of ECMAScript regular expressions the program uses:
    character classes, greedy repetition of a class, sequence,
    alternation, capturing groups and the two anchors, matched by
    backtracking in the order of the specification (the longest
    repetition first, the left alternative first). *)

Inductive regex : Type :=
| Chr (p : ascii -> bool)      (* one character of a class *)
| Star (p : ascii -> bool)     (* [p*], greedy *)
| Seq (r1 r2 : regex)
| Alt (r1 r2 : regex)
| Grp (r : regex)              (* capturing group *)
| Eps                          (* the empty expression *)
| Bol                          (* [^], no multiline flag *)
| Eol.                         (* [$], no multiline flag *)

(** [p+] *)
Definition Plus (p : ascii -> bool) : regex := Seq (Chr p) (Star p).

(** The prefix of [s] consumed when [s'] is what remains of it. *)
Fixpoint take (n : nat) (s : string) : string :=
  match n, s with
  | S n', String c s' => String c (take n' s')
  | _, _ => ""
  end.

Definition consumed (s s' : string) : string :=
  take (String.length s - String.length s') s.

Fixpoint rstar {R : Type} (p : ascii -> bool) (s : string)
    (k : string -> option R) : option R :=
  match s with
  | String c s' =>
      if p c then
        match rstar p s' k with
        | Some r => Some r
        | None => k s
        end
      else k s
  | "" => k ""
  end.

(** [rmatch n r s caps k]: match [r] at the front of [s], the rest of an
    input of [n] characters; [caps] are the groups closed so far, in
    order; [k] matches what follows [r]. *)
Fixpoint rmatch (n : nat) (r : regex) (s : string) (caps : list string)
    (k : string -> list string -> option (list string))
    : option (list string) :=
  match r with
  | Chr p =>
      match s with
      | String c s' => if p c then k s' caps else None
      | "" => None
      end
  | Star p => rstar p s (fun s' => k s' caps)
  | Seq r1 r2 => rmatch n r1 s caps (fun s' caps' => rmatch n r2 s' caps' k)
  | Alt r1 r2 =>
      match rmatch n r1 s caps k with
      | Some c => Some c
      | None => rmatch n r2 s caps k
      end
  | Grp r1 =>
      rmatch n r1 s caps (fun s' caps' => k s' (caps' ++ [consumed s s'])%list)
  | Eps => k s caps
  | Bol => if (String.length s =? n)%nat then k s caps else None
  | Eol => match s with "" => k s caps | _ => None end
  end.

(** The first position of the input at which the expression matches. *)
Fixpoint rsearch (n : nat) (r : regex) (s : string) : option (list string) :=
  match rmatch n r s [] (fun _ caps => Some caps) with
  | Some caps => Some caps
  | None =>
      match s with
      | "" => None
      | String _ s' => rsearch n r s'
      end
  end.

(** [s.match(r)] for an expression without the global flag: the groups of
    the first match. *)
Definition regex_match (r : regex) (s : string) : option (list string) :=
  rsearch (String.length s) r s.

(** [r.test(s)] *)
Definition regex_test (r : regex) (s : string) : bool :=
  match regex_match r s with Some _ => true | None => false end.

(** Case folding of the [i] flag (Canonicalize, without the [u] flag): a
    character is compared through its upper case; on the Latin-1 range
    that is a-z and U+00E0-U+00FE (but the division sign U+00F7) moved
    down by 32.  The upper cases of U+00B5, U+00DF and U+00FF lie outside
    the range or are not single characters, and the rule keeps them. *)
Definition canonicalize (c : ascii) : ascii :=
  let n := nat_of_ascii c in
  if (((97 <=? n) && (n <=? 122)) ||
      ((224 <=? n) && (n <=? 254) && negb (n =? 247)))%nat
  then ascii_of_nat (n - 32) else c.

Definition chr_ci (c : ascii) : ascii -> bool :=
  fun d => Ascii.eqb (canonicalize d) (canonicalize c).

(** A literal word under the [i] flag. *)
Fixpoint lit_ci (w : string) : regex :=
  match w with
  | "" => Eps
  | String c w' => Seq (Chr (chr_ci c)) (lit_ci w')
  end.

(** ** Numbers

    What the consolidator asks of the JavaScript runtime. *)

Class NumberRuntime : Type := {
  Number : Type;
  parseFloat : string -> Number;
  isNaN : Number -> bool;
  num_add : Number -> Number -> Number;      (* [a + b] *)
  num_to_string : Number -> string           (* [String(x)] *)
}.

(** *** The IEEE 754 binary64 runtime *)

(** The longest prefix of characters of a class, and what follows it. *)
Fixpoint span (p : ascii -> bool) (s : string) : string * string :=
  match s with
  | String c s' =>
      if p c then let '(a, b) := span p s' in (String c a, b) else ("", s)
  | "" => ("", "")
  end.

Fixpoint digits_value (acc : Z) (s : string) : Z :=
  match s with
  | "" => acc
  | String c s' => digits_value (10 * acc + (Z.of_nat (nat_of_ascii c) - 48)) s'
  end.

(** The double nearest to the rational [p / q] (ties to even), for
    positive [p] and [q]. *)
Definition nearest_double (p q : Z) : float :=
  SF2Prim (SFdiv prec emax (S754_finite false (Z.to_pos p) 0)
                           (S754_finite false (Z.to_pos q) 0)).

(** The double nearest to [d * 10^e], for [0 <= d]. *)
Definition decimal_to_double (d e : Z) : float :=
  if (d =? 0)%Z then zero
  else if (0 <=? e)%Z then nearest_double (d * 10 ^ e) 1
  else nearest_double d (10 ^ (- e)).

(** [ExponentPart]: [e] or [E], an optional sign, one digit or more.  A
    part that is not well formed is not part of the literal. *)
Definition parse_exponent (s : string) : Z :=
  match s with
  | String c s1 =>
      if Ascii.eqb c "e" || Ascii.eqb c "E" then
        let '(neg, s2) :=
          match s1 with
          | String "+" r => (false, r)
          | String "-" r => (true, r)
          | _ => (false, s1)
          end in
        let '(ds, _) := span is_digit s2 in
        if nonempty ds
        then (if neg then - digits_value 0 ds else digits_value 0 ds)%Z
        else 0%Z
      else 0%Z
  | "" => 0%Z
  end.

(** The longest prefix that is an unsigned [StrDecimalLiteral] other than
    [Infinity], as digits and a power of ten. *)
Definition parse_decimal (s : string) : option (Z * Z) :=
  let '(ip, r1) := span is_digit s in
  let '(fp, r2) :=
    match r1 with
    | String "." r => span is_digit r
    | _ => ("", r1)
    end in
  if nonempty ip || nonempty fp
  then Some (digits_value 0 (ip ++ fp),
             (parse_exponent r2 - Z.of_nat (String.length fp))%Z)
  else None.

(** [parseFloat]: leading white space is skipped, the longest prefix that
    is a decimal literal is read, and what follows it is ignored.  The
    value is rounded to the nearest double, ties to even, whatever the
    number of digits. *)
Definition ieee_parseFloat (s : string) : float :=
  let t := trimStart s in
  let '(neg, u) :=
    match t with
    | String "+" r => (false, r)
    | String "-" r => (true, r)
    | _ => (false, t)
    end in
  let x :=
    if String.prefix "Infinity" u then infinity
    else match parse_decimal u with
         | Some (d, e) => decimal_to_double d e
         | None => nan
         end in
  if neg then (- x)%float else x.

Definition digits_of (z : Z) : string :=
  NilZero.string_of_uint (Pos.to_uint (Z.to_pos z)).

Fixpoint zeros (n : nat) : string :=
  match n with O => "" | S n' => String "0" (zeros n') end.

(** Is [p / q < 10^n] ? *)
Definition below_pow10 (p q n : Z) : bool :=
  if (0 <=? n)%Z then (p <? q * 10 ^ n)%Z else (p * 10 ^ (- n) <? q)%Z.

(** The [n] of Number::toString: [10^(n-1) <= p/q < 10^n], searched upwards
    from an [n] that is not above it. *)
Fixpoint decimal_exponent (fuel : nat) (p q n : Z) : Z :=
  match fuel with
  | O => n
  | S fuel' =>
      if below_pow10 p q n then n else decimal_exponent fuel' p q (n + 1)%Z
  end.

(** The digits of Number::toString for the positive finite double [x],
    whose value is [p / q]: the least [k] for which some [s] of [k] digits
    has [s * 10^(n-k)] round to [x]; of two such [s], the nearer to [x].
    Tried for [k] from [k] up, [fuel] times. *)
Fixpoint shortest_digits (fuel : nat) (x : float) (p q n k : Z) : Z * Z * Z :=
  match fuel with
  | O => (0, n, k)%Z
  | S fuel' =>
      (* x * 10^(k-n) = P / Q *)
      let '(P, Q) := if (0 <=? k - n)%Z then (p * 10 ^ (k - n), q)%Z
                     else (p, q * 10 ^ (n - k))%Z in
      let lo := (P / Q)%Z in
      let hi := (lo + 1)%Z in
      let ok s := (decimal_to_double s (n - k) =? x)%float in
      let pick s := if (s =? 10 ^ k)%Z then (10 ^ (k - 1), n + 1, k)%Z
                    else (s, n, k) in
      match ok lo, ok hi with
      | true, true =>
          let r := (2 * (P mod Q))%Z in
          if (r <? Q)%Z then pick lo
          else if (Q <? r)%Z then pick hi
          else if Z.even lo then pick lo else pick hi
      | true, false => pick lo
      | false, true => pick hi
      | false, false => shortest_digits fuel' x p q n (k + 1)%Z
      end
  end.

(** Number::toString, radix 10, of a positive finite double. *)
Definition positive_to_string (x : float) (m : positive) (e : Z) : string :=
  let '(p, q) := if (0 <=? e)%Z then (Zpos m * 2 ^ e, 1)%Z
                 else (Zpos m, 2 ^ (- e))%Z in
  (* [p / q] lies between [2^(l-1)] and [2^(l+1)] *)
  let l := (Z.log2 p - Z.log2 q)%Z in
  let n0 := decimal_exponent 8 p q ((l - 1) * 30103 / 100000 - 1)%Z in
  let '(s, n, k) := shortest_digits 17 x p q n0 1%Z in
  let ds := digits_of s in
  if ((k <=? n) && (n <=? 21))%Z then
    ds ++ zeros (Z.to_nat (n - k))
  else if ((0 <? n) && (n <=? 21))%Z then
    take (Z.to_nat n) ds ++ "." ++ substring (Z.to_nat n) (Z.to_nat (k - n)) ds
  else if ((-6 <? n) && (n <=? 0))%Z then
    "0." ++ zeros (Z.to_nat (- n)) ++ ds
  else
    let ex := (n - 1)%Z in
    let sg := if (ex <? 0)%Z then "-" else "+" in
    let mant := if (k =? 1)%Z then ds
                else take 1 ds ++ "." ++ substring 1 (Z.to_nat (k - 1)) ds in
    mant ++ "e" ++ sg ++ digits_of (Z.abs ex).

Definition ieee_to_string (x : float) : string :=
  match Prim2SF x with
  | S754_nan => "NaN"
  | S754_zero _ => "0"
  | S754_infinity false => "Infinity"
  | S754_infinity true => "-Infinity"
  | S754_finite sg m e =>
      (if sg then "-" else "") ++ positive_to_string (abs x) m e
  end.

#[export] Instance ieee754 : NumberRuntime := {
  Number := float;
  parseFloat := ieee_parseFloat;
  isNaN := PrimFloat.is_nan;
  num_add := PrimFloat.add;
  num_to_string := ieee_to_string
}.

(** ** Item records *)

Record Item : Type := mkItem {
  id : string;
  name : string;
  quantity : option string;
  unit : option string;
  category : string;
  notes : option string;
  have : option bool;       (* already in pantry/fridge *)
  checked : option bool;    (* added to cart / done *)
  createdAt : option Z
}.

(** Truthiness of an optional flag. *)
Definition flag (o : option bool) : bool :=
  match o with Some true => true | _ => false end.

(** [a && b] on optional flags: the left operand when it is falsy, else
    the right one. *)
Definition js_and (a b : option bool) : option bool :=
  if flag a then b else a.

(** [a === b] on optional strings. *)
Definition strict_eqb (a b : option string) : bool :=
  match a, b with
  | Some x, Some y => String.eqb x y
  | None, None => true
  | _, _ => false
  end.

(** ** CSV codec: encode *)

Definition csv_header : list string :=
  ["name"; "quantity"; "unit"; "category"; "notes"; "have"; "checked"].

(** A cell of the encoder: the value between double quotes, each double
    quote in it doubled. *)
Definition csv_quote (v : string) : string :=
  str1 dquote ++ replaceAll dquote (String dquote (str1 dquote)) v ++ str1 dquote.

Definition csv_cells (it : Item) : list string :=
  [ name it;
    nullish (quantity it) "";
    nullish (unit it) "";
    category it;
    nullish (notes it) "";
    if flag (have it) then "TRUE" else "FALSE";
    if flag (checked it) then "TRUE" else "FALSE" ].

Definition csv_line (it : Item) : string :=
  String.concat "," (map csv_quote (csv_cells it)).

Definition toCSV (items : list Item) : string :=
  String.concat (str1 LF) (String.concat "," csv_header :: map csv_line items).

(** ** CSV codec: decode *)

(** The variables of the scanning loop of [parseCSV]. *)
Record Scanner : Type := mkScanner {
  rows : list (list string);
  row : list string;
  field : string;
  inQuotes : bool
}.

Definition scanner0 : Scanner := mkScanner [] [] "" false.

Definition add_char (c : ascii) (st : Scanner) : Scanner :=
  mkScanner (rows st) (row st) (field st ++ str1 c) (inQuotes st).

Definition set_quotes (b : bool) (st : Scanner) : Scanner :=
  mkScanner (rows st) (row st) (field st) b.

Definition pushField (st : Scanner) : Scanner :=
  mkScanner (rows st) (row st ++ [field st])%list "" (inQuotes st).

Definition pushRow (st : Scanner) : Scanner :=
  mkScanner (rows st ++ [row st])%list [] (field st) (inQuotes st).

Definition is_terminator (c : ascii) : bool :=
  Ascii.eqb c LF || Ascii.eqb c CR.

Definition next_is (c : ascii) (next : option ascii) : bool :=
  match next with Some d => Ascii.eqb d c | None => false end.

(** What the loop does at a line terminator outside quotes. *)
Definition end_of_line (st : Scanner) : Scanner :=
  let st1 := pushField st in
  if (1 <? List.length (row st1))%nat || (List.length (rows st1) =? 0)%nat
  then pushRow st1 else st1.

(** One turn of the loop: [c] is [text[i++]] and [next] is [text[i]] after
    the increment ([None] past the end).  The flag tells whether the turn
    consumed [next] too. *)
Definition scan_step (st : Scanner) (c : ascii) (next : option ascii)
    : Scanner * bool :=
  if inQuotes st then
    if Ascii.eqb c dquote then
      if next_is dquote next then (add_char dquote st, true)
      else (set_quotes false st, false)
    else (add_char c st, false)
  else
    if Ascii.eqb c dquote then (set_quotes true st, false)
    else if Ascii.eqb c "," then (pushField st, false)
    else if is_terminator c then
      (end_of_line st, Ascii.eqb c CR && next_is LF next)   (* handle CRLF *)
    else (add_char c st, false).

Definition head_char (s : string) : option ascii :=
  match s with String c _ => Some c | "" => None end.

Fixpoint scan (st : Scanner) (text : string) : Scanner :=
  match text with
  | "" => st
  | String c rest =>
      let '(st', skip) := scan_step st c (head_char rest) in
      match skip, rest with
      | true, String _ rest' => scan st' rest'
      | _, _ => scan st' rest
      end
  end.

(** The last field and row, after the loop. *)
Definition scan_end (st : Scanner) : Scanner :=
  if nonempty (field st) || (0 <? List.length (row st))%nat
  then pushRow (pushField st) else st.

Definition parse_rows (text : string) : list (list string) :=
  rows (scan_end (scan scanner0 text)).

(** A plain object used as a map from strings to strings, in insertion
    order.  An assignment to the key [__proto__] does not create a
    property.  ([Object.values] would list the keys that are array indices
    first; the one use of it below, a test for blankness of the joined
    values, does not depend on the order.) *)
Definition Obj : Type := list (string * string).

Fixpoint obj_get (k : string) (o : Obj) : option string :=
  match o with
  | [] => None
  | (k', v) :: o' => if String.eqb k' k then Some v else obj_get k o'
  end.

Fixpoint obj_put (k v : string) (o : Obj) : Obj :=
  match o with
  | [] => [(k, v)]
  | (k', v') :: o' =>
      if String.eqb k' k then (k, v) :: o' else (k', v') :: obj_put k v o'
  end.

Definition obj_set (k v : string) (o : Obj) : Obj :=
  if String.eqb k "__proto__" then o else obj_put k v o.

Definition obj_values (o : Obj) : list string := map snd o.

(** The [header.forEach] of [parseCSV]: the column [h] of index [idx] gets
    the field [rows[r][idx]], or the empty string past the end of the
    row. *)
Fixpoint fill_object (header : list string) (idx : nat) (r : list string)
    (obj : Obj) : Obj :=
  match header with
  | [] => obj
  | h :: hs => fill_object hs (S idx) r (obj_set h (nth idx r "") obj)
  end.

Definition parseCSV (text : string) : list Obj :=
  match parse_rows text with
  | [] => []
  | hd :: body =>
      let header := map (fun h => toLowerCase (trim h)) hd in
      filter (fun obj => nonempty (trim (String.concat "" (obj_values obj))))
             (map (fun r => fill_object header 0 r []) body)
  end.

(** ** Category normalizer *)

Definition normalizeCategory (c : string) (categories : list string) : string :=
  if negb (nonempty c) then "Other"
  else
    let t := toLowerCase (trim c) in
    match find (fun cat => String.eqb (toLowerCase cat) t) categories with
    | Some found => found
    | None => trim c
    end.

(** ** Producers of item records *)

(** [/true|yes|y|1/i] *)
Definition truthy_rx : regex :=
  Alt (lit_ci "true") (Alt (lit_ci "yes") (Alt (lit_ci "y") (lit_ci "1"))).

(** The class [[\d\/\.]]. *)
Definition is_num_char (c : ascii) : bool :=
  is_digit c || Ascii.eqb c "/" || Ascii.eqb c ".".

(** The class [.]: every character but the line terminators. *)
Definition is_dot (c : ascii) : bool := negb (is_line_terminator c).

(** The expression of [handlePaste], written here with a space between
    its parts:  ^  \s*  ( \d+ [\d\/\.]* )  \s+  ( [a-zA-Z]+ )  \s+  ( .+ )  $  *)
Definition paste_rx : regex :=
  Seq Bol
 (Seq (Star is_ws)
 (Seq (Grp (Seq (Plus is_digit) (Star is_num_char)))
 (Seq (Plus is_ws)
 (Seq (Grp (Plus is_alpha))
 (Seq (Plus is_ws)
 (Seq (Grp (Plus is_dot))
      Eol)))))).

(** [l.map(f)] where the [i]-th call of [f] is the [(n + i)]-th creation
    of a record. *)
Fixpoint map_from {A B : Type} (f : nat -> A -> B) (n : nat) (l : list A)
    : list B :=
  match l with
  | [] => []
  | x :: l' => f n x :: map_from f (S n) l'
  end.

Section Producers.

(** The identifier returned by [uid()] and the time returned by
    [Date.now()] at the creation of the [n]-th record. *)
Variable uid : nat -> string.
Variable now : nat -> Z.

(** The callback of [rows.map] in [importCSV]. *)
Definition import_row (categories : list string) (n : nat) (r : Obj) : Item :=
  let name :=
    or_default (or_else (or_else (or_else (obj_get "item" r) (obj_get "name" r))
                                 (obj_get "product" r)) (obj_get "ingredient" r)) "" in
  let quantity :=
    or_default (or_else (or_else (obj_get "qty" r) (obj_get "quantity" r))
                        (obj_get "amount" r)) "" in
  let unit := or_default (or_else (obj_get "unit" r) (obj_get "units" r)) "" in
  let categoryRaw :=
    or_default (or_else (or_else (or_else (obj_get "category" r) (obj_get "section" r))
                                 (obj_get "aisle" r)) (obj_get "dept" r)) "" in
  let notes :=
    or_default (or_else (or_else (obj_get "notes" r) (obj_get "note" r))
                        (obj_get "details" r)) "" in
  let have := regex_test truthy_rx (or_default (obj_get "have" r) "") in
  let checked := regex_test truthy_rx (or_default (obj_get "checked" r) "") in
  {| id := uid n;
     name := trim name;
     quantity := Some (trim (or_default (Some quantity) ""));
     unit := Some (trim (or_default (Some unit) ""));
     category := normalizeCategory categoryRaw categories;
     notes := Some (trim (or_default (Some notes) ""));
     have := Some have;
     checked := Some checked;
     createdAt := Some (now n) |}.

(** The records [importCSV] makes of a text. *)
Definition import_records (categories : list string) (n : nat)
    (text : string) : list Item :=
  filter (fun x => nonempty (name x))
         (map_from (import_row categories) n (parseCSV text)).

(** [importCSV]: the new item collection, from the category list, the
    collection [prev] and the number [n] of records created so far. *)
Definition importCSV (categories : list string) (prev : list Item) (n : nat)
    (text : string) : list Item :=
  let mapped := import_records categories n text in
  if (0 <? List.length mapped)%nat then (mapped ++ prev)%list else prev.

(** The body of the loop of [handlePaste], for one line.  (The line is
    also split on white space there, into variables that are not
    read.) *)
Definition paste_line (n : nat) (line : string) : Item :=
  let parts := split_on "|" line in
  let left := nth 0 parts "" in
  let right := nth_error parts 1 in
  let category := or_default (option_map trim right) "Other" in
  match regex_match paste_rx left with
  | Some m =>
      {| id := uid n; name := nth 2 m ""; quantity := Some (nth 0 m "");
         unit := Some (nth 1 m ""); category := category; notes := None;
         have := Some false; checked := Some false;
         createdAt := Some (now n) |}
  | None =>
      {| id := uid n; name := trim left; quantity := Some "";
         unit := Some ""; category := category; notes := None;
         have := Some false; checked := Some false;
         createdAt := Some (now n) |}
  end.

(** [text.split(/\r?\n/).map(l => l.trim()).filter(Boolean)] *)
Definition paste_lines (text : string) : list string :=
  filter nonempty (map trim (split_lines text)).

(** The records [handlePaste] makes of a text. *)
Definition paste_records (n : nat) (text : string) : list Item :=
  map_from paste_line n (paste_lines text).

Definition handlePaste (prev : list Item) (n : nat) (text : string)
    : list Item :=
  let parsed := paste_records n text in
  if (0 <? List.length parsed)%nat then (parsed ++ prev)%list else prev.

End Producers.

(** ** Consolidator *)

(** The key of a record: its name and its category in lower case, with a
    bar between them. *)
Definition key (it : Item) : string :=
  toLowerCase (name it) ++ "|" ++ toLowerCase (category it).

(** The [Map] from keys to records: an association list in insertion
    order, a key at most once. *)
Definition ItemMap : Type := list (string * Item).

Fixpoint map_get (k : string) (m : ItemMap) : option Item :=
  match m with
  | [] => None
  | (k', v) :: m' => if String.eqb k' k then Some v else map_get k m'
  end.

(** [map.set(k, v)] for a new key puts it last; the record of a key that
    is there is updated in place. *)
Fixpoint map_set (k : string) (v : Item) (m : ItemMap) : ItemMap :=
  match m with
  | [] => [(k, v)]
  | (k', v') :: m' =>
      if String.eqb k' k then (k, v) :: m' else (k', v') :: map_set k v m'
  end.

Definition map_values (m : ItemMap) : list Item := map snd m.

(** [parts.filter(Boolean).join(sep)] with a semicolon and a space for
    [sep]. *)
Definition join_truthy (parts : list (option string)) : string :=
  String.concat "; "
    (flat_map (fun o => if truthy o then [nullish o ""] else []) parts).

Definition set_quantity (q : option string) (it : Item) : Item :=
  mkItem (id it) (name it) q (unit it) (category it) (notes it)
         (have it) (checked it) (createdAt it).

Definition set_notes (n : option string) (it : Item) : Item :=
  mkItem (id it) (name it) (quantity it) (unit it) (category it) n
         (have it) (checked it) (createdAt it).

Definition set_flags (h c : option bool) (it : Item) : Item :=
  mkItem (id it) (name it) (quantity it) (unit it) (category it) (notes it)
         h c (createdAt it).

Section Consolidator.

Context {RT : NumberRuntime}.

(** The [else] branch of the loop: [it] is merged into [cur], the record
    kept for its key.  ([String(q)] is read where [q] is a string that is
    not empty, and is [q].) *)
Definition merge (cur it : Item) : Item :=
  let cur1 :=
    if truthy (quantity cur) && truthy (quantity it)
       && strict_eqb (unit cur) (unit it)
    then
      let a := parseFloat (nullish (quantity cur) "") in
      let b := parseFloat (nullish (quantity it) "") in
      if negb (isNaN a) && negb (isNaN b)
      then set_quantity (Some (num_to_string (num_add a b))) cur
      else set_notes (Some (join_truthy [notes cur; quantity it])) cur
    else
      set_notes
        (Some (join_truthy
                 [ notes cur;
                   (if truthy (quantity it) && truthy (unit it)
                    then Some (nullish (quantity it) "" ++ " " ++ nullish (unit it) "")
                    else Some (or_default (quantity it) ""));
                   notes it ]))
        cur in
  set_flags (js_and (have cur1) (have it))      (* only mark have if both had it *)
            (js_and (checked cur1) (checked it))
            cur1.

(** One turn of the loop of [consolidateDuplicates]. *)
Definition consolidate_step (m : ItemMap) (it : Item) : ItemMap :=
  let k := key it in
  match map_get k m with
  | None => map_set k it m
  | Some cur => map_set k (merge cur it) m
  end.

Definition consolidate_map (items : list Item) : ItemMap :=
  fold_left consolidate_step items [].

(** [consolidateDuplicates]: the new item collection, from the current
    one. *)
Definition consolidateDuplicates (items : list Item) : list Item :=
  map_values (consolidate_map items).

End Consolidator.

(** ** Notions used in the statements *)

(** What is left of the text after a line terminator [c] read outside
    quotes: the line feed of a CRLF pair goes with its carriage return. *)
Definition after_terminator (c : ascii) (rest : string) : string :=
  match rest with
  | String d rest' => if Ascii.eqb c CR && Ascii.eqb d LF then rest' else rest
  | "" => rest
  end.

(** The turn of the loop that leads from [st] to [st'] finished the row:
    the fields gathered so far, with the one just ended, are a new row, and
    a fresh row begins. *)
Definition row_finished (st st' : Scanner) : Prop :=
  rows st' = (rows st ++ [row st ++ [field st]])%list /\ row st' = [].

(** The condition for finishing a row in the words of the specification:
    the terminator is not the first row boundary met (a row was finished
    before), or the row gathered, with the field just ended, has more
    than one field. *)
Definition row_rule_as_specified (st : Scanner) : Prop :=
  rows st <> [] \/ 1 < List.length (row st ++ [field st]).

(** The rule of the specification, for the states the loop reaches:
    outside quotes a terminator finishes the row only when
    [row_rule_as_specified] holds. *)
Definition row_boundary_as_specified : Prop :=
  forall (pre : string) (c : ascii) (next : option ascii),
    let st := scan scanner0 pre in
    inQuotes st = false ->
    is_terminator c = true ->
    row_finished st (fst (scan_step st c next)) ->
    row_rule_as_specified st.

(** The same characters up to the case folding of the [i] flag. *)
Fixpoint fold_case (s : string) : string :=
  match s with
  | "" => ""
  | String c s' => String (canonicalize c) (fold_case s')
  end.

(** [s] contains the word [w] somewhere, up to case. *)
Definition contains_ci (w s : string) : Prop :=
  exists pre mid post, s = pre ++ mid ++ post /\ fold_case mid = fold_case w.

(** What is left of [s] after the word [w] at its front, up to case. *)
Fixpoint strip_ci (w s : string) : option string :=
  match w with
  | "" => Some s
  | String c w' =>
      match s with
      | String d s' => if chr_ci c d then strip_ci w' s' else None
      | "" => None
      end
  end.

(** The words of the expression [truthy_rx]. *)
Definition truthy_words : list string := ["true"; "yes"; "y"; "1"].

(** The row mapping of an item: what the decoder gives back for the line
    the encoder writes of it. *)
Definition csv_object (it : Item) : Obj :=
  [ ("name", name it);
    ("quantity", nullish (quantity it) "");
    ("unit", nullish (unit it) "");
    ("category", category it);
    ("notes", nullish (notes it) "");
    ("have", if flag (have it) then "TRUE" else "FALSE");
    ("checked", if flag (checked it) then "TRUE" else "FALSE") ].

(** The text of a flag in a CSV cell. *)
Definition flag_text (b : bool) : string := if b then "TRUE" else "FALSE".

(** The fields of a row mapping under the recognized column names are the
    values of the item, the flags as [TRUE] and [FALSE]. *)
Definition row_matches (it : Item) (r : Obj) : Prop :=
  obj_get "name" r = Some (name it) /\
  obj_get "quantity" r = quantity it /\
  obj_get "unit" r = unit it /\
  obj_get "category" r = Some (category it) /\
  obj_get "notes" r = notes it /\
  option_map flag_text (have it) = obj_get "have" r /\
  option_map flag_text (checked it) = obj_get "checked" r.

(** The lines of a text after its first line, each behind its line
    feed. *)
Fixpoint following (ls : list string) : string :=
  match ls with
  | [] => ""
  | l :: ls' => String LF (l ++ following ls')
  end.

(** The strings an expression matches: [Lang n r a b caps] when [r]
    matches [a] in front of the rest [b] of an input of [n] characters,
    closing the groups [caps]. *)
Inductive Lang (n : nat) : regex -> string -> string -> list string -> Prop :=
| L_Chr (p : ascii -> bool) (c : ascii) (b : string) :
    p c = true -> Lang n (Chr p) (str1 c) b []
| L_Star (p : ascii -> bool) (a b : string) :
    all_chars p a = true -> Lang n (Star p) a b []
| L_Seq (r1 r2 : regex) (a1 a2 b : string) (c1 c2 : list string) :
    Lang n r1 a1 (a2 ++ b) c1 -> Lang n r2 a2 b c2 ->
    Lang n (Seq r1 r2) (a1 ++ a2) b (c1 ++ c2)%list
| L_AltL (r1 r2 : regex) (a b : string) (c : list string) :
    Lang n r1 a b c -> Lang n (Alt r1 r2) a b c
| L_AltR (r1 r2 : regex) (a b : string) (c : list string) :
    Lang n r2 a b c -> Lang n (Alt r1 r2) a b c
| L_Grp (r : regex) (a b : string) (c : list string) :
    Lang n r a b c -> Lang n (Grp r) a b (c ++ [a])%list
| L_Eps (b : string) : Lang n Eps "" b []
| L_Bol (b : string) : String.length b = n -> Lang n Bol "" b []
| L_Eol : Lang n Eol "" "" [].

(** The pattern of [handlePaste] read on a left part: white space if any,
    the numeral [q] (a digit, then digits, bars of fraction and dots),
    white space, the unit [u] (letters), white space, and the text [nm] (not
    empty, no line terminator in it) up to the end. *)
Definition numeral (q : string) : Prop :=
  exists d q', q = String d q' /\ is_digit d = true /\
               all_chars is_num_char q' = true.

Definition blank (w : string) : Prop :=
  w <> "" /\ all_chars is_ws w = true.

Definition letters (u : string) : Prop :=
  u <> "" /\ all_chars is_alpha u = true.

Definition paste_pattern (left q u nm : string) : Prop :=
  exists ws ws1 ws2,
    left = ws ++ q ++ ws1 ++ u ++ ws2 ++ nm /\
    all_chars is_ws ws = true /\
    numeral q /\ blank ws1 /\ letters u /\ blank ws2 /\
    nm <> "" /\ all_chars is_dot nm = true.

(** There is no bar in the string. *)
Definition no_bar (s : string) : bool :=
  all_chars (fun c => negb (Ascii.eqb c "|")) s.

(** The shape of a line of [handlePaste] whose pieces between bars begin
    with [l] and then [right], when there is a second piece. *)
Definition line_pieces (line l : string) (right : option string) : Prop :=
  no_bar l = true /\
  ((line = l /\ right = None) \/
   (exists r rest,
       no_bar r = true /\ line = l ++ "|" ++ r ++ rest /\
       (rest = "" \/ exists t, rest = "|" ++ t) /\ right = Some r)).

(** The split of a line in the words of the specification: on the first
    bar, into a left part and what follows the bar, when there is one. *)
Fixpoint split_first_bar (line : string) : string * option string :=
  match line with
  | "" => ("", None)
  | String c s =>
      if Ascii.eqb c "|" then ("", Some s)
      else let '(l, r) := split_first_bar s in (String c l, r)
  end.

(** The category of a line in the words of the specification. *)
Definition category_as_specified (line : string) : string :=
  or_default (option_map trim (snd (split_first_bar line))) "Other".

(** The string is empty or begins with a character outside the class. *)
Definition head_not (p : ascii -> bool) (s : string) : Prop :=
  match s with
  | "" => True
  | String c _ => p c = false
  end.

(** A supply of identifiers and times for the examples. *)
Definition sample_uid (n : nat) : string :=
  "id" ++ NilZero.string_of_uint (Nat.to_uint n).

Definition sample_now (n : nat) : Z := (1700000000000 + Z.of_nat n)%Z.

(** The invariant of the loop of the consolidator: a key occurs once in the map, and it is the
    key of its record. *)
Definition map_ok (m : ItemMap) : Prop :=
  NoDup (map fst m) /\ Forall (fun kv => key (snd kv) = fst kv) m.

(** The keys of a list in the order in which each is first seen, but the
    keys [seen] before. *)
Fixpoint first_seen (seen : list string) (ks : list string) : list string :=
  match ks with
  | [] => []
  | k :: ks' =>
      if existsb (String.eqb k) seen then first_seen seen ks'
      else k :: first_seen (k :: seen) ks'
  end.

(** The record [out] stands for the item [x], the first of its key in
    [items]: it has its name, category, identifier and time of creation. *)
Definition stands_for_first (items : list Item) (k : string) (out : Item)
    : Prop :=
  exists pre x post,
    items = (pre ++ x :: post)%list /\
    (forall y, In y pre -> key y <> key x) /\
    k = key x /\
    name out = name x /\ category out = category x /\
    id out = id x /\ createdAt out = createdAt x.

(** The invariant of the working collection, in the words of the
    specification: a name that is not empty once trimmed, and no optional
    field left undefined. *)
Definition working_invariant (it : Item) : Prop :=
  trim (name it) <> "" /\
  quantity it <> None /\ unit it <> None /\ notes it <> None /\
  have it <> None /\ checked it <> None /\ createdAt it <> None.

(** ** The item collection: manual changes *)

(** A [Partial<Item>]: each property is there or not.  A property of an
    optional field that is there may hold [undefined]; the properties
    [id], [name] and [category], when they are there, hold a string, as
    the fields of an item do. *)
Record Patch : Type := mkPatch {
  p_id : option string;
  p_name : option string;
  p_quantity : option (option string);
  p_unit : option (option string);
  p_category : option string;
  p_notes : option (option string);
  p_have : option (option bool);
  p_checked : option (option bool);
  p_createdAt : option (option Z)
}.

(** The value read from a property that may be missing. *)
Definition read {A : Type} (o : option (option A)) : option A :=
  match o with Some v => v | None => None end.

(** The spread of a property over a field. *)
Definition over {A : Type} (o : option A) (old : A) : A :=
  match o with Some v => v | None => old end.

(** The object spread of a record and a patch: the properties of the
    patch replace the fields of the record. *)
Definition apply_patch (patch : Patch) (it : Item) : Item :=
  {| id := over (p_id patch) (id it);
     name := over (p_name patch) (name it);
     quantity := over (p_quantity patch) (quantity it);
     unit := over (p_unit patch) (unit it);
     category := over (p_category patch) (category it);
     notes := over (p_notes patch) (notes it);
     have := over (p_have patch) (have it);
     checked := over (p_checked patch) (checked it);
     createdAt := over (p_createdAt patch) (createdAt it) |}.

Section Collection.

(** The identifier returned by [uid()] and the time returned by
    [Date.now()] at the creation of the [n]-th record. *)
Variable uid : nat -> string.
Variable now : nat -> Z.

(** The record [addItem] makes of a partial item. *)
Definition new_item (n : nat) (partial : Patch) : Item :=
  {| id := uid n;
     name := trim (or_default (p_name partial) "");
     quantity := Some (or_default (option_map trim (read (p_quantity partial))) "");
     unit := Some (or_default (option_map trim (read (p_unit partial))) "");
     category := or_default (p_category partial) "Other";
     notes := Some (or_default (option_map trim (read (p_notes partial))) "");
     have := Some (flag (read (p_have partial)));
     checked := Some (flag (read (p_checked partial)));
     createdAt := Some (now n) |}.

(** [addItem]: the new item collection. *)
Definition addItem (prev : list Item) (n : nat) (partial : Patch) : list Item :=
  let it := new_item n partial in
  if negb (nonempty (name it)) then prev else it :: prev.

End Collection.

Definition updateItem (id0 : string) (patch : Patch) (prev : list Item)
    : list Item :=
  map (fun it => if String.eqb (id it) id0 then apply_patch patch it else it)
      prev.

Definition removeItem (id0 : string) (prev : list Item) : list Item :=
  filter (fun it => negb (String.eqb (id it) id0)) prev.

Definition clearChecked (prev : list Item) : list Item :=
  filter (fun it => negb (flag (checked it))) prev.

(** ** The filter of the list shown *)

(** [s.includes(q)] *)
Fixpoint includes (q s : string) : bool :=
  String.prefix q s ||
  match s with
  | "" => false
  | String _ s' => includes q s'
  end.

(** [field?.toLowerCase().includes(q)], falsy for a field that is
    undefined. *)
Definition field_includes (field : option string) (q : string) : bool :=
  match field with
  | Some s => includes q (toLowerCase s)
  | None => false
  end.

(** The callback of [items.filter] in [filtered]. *)
Definition shown (q : string) (showOnlyNeeded showOnlyUnchecked : bool)
    (it : Item) : bool :=
  if showOnlyNeeded && flag (have it) then false
  else if showOnlyUnchecked && flag (checked it) then false
  else if negb (nonempty q) then true
  else includes q (toLowerCase (name it))
       || includes q (toLowerCase (category it))
       || field_includes (notes it) q
       || field_includes (unit it) q.

Definition filtered (items : list Item) (query : string)
    (showOnlyNeeded showOnlyUnchecked : bool) : list Item :=
  let q := toLowerCase (trim query) in
  filter (shown q showOnlyNeeded showOnlyUnchecked) items.

(** ** The editor of the category list *)

(** [addCat]: the new category list, from the text of the input. *)
Definition addCat (newCat : string) (categories : list string) : list string :=
  let c := trim newCat in
  if negb (nonempty c) then categories
  else if negb (existsb (String.eqb c) categories)
       then (categories ++ [c])%list
       else categories.

(** [categories.filter((_, i) => i !== idx)], the entries numbered from
    [i]. *)
Fixpoint drop_index {A : Type} (idx : Z) (i : Z) (l : list A) : list A :=
  match l with
  | [] => []
  | x :: l' =>
      if (i =? idx)%Z then drop_index idx (i + 1)%Z l'
      else x :: drop_index idx (i + 1)%Z l'
  end.

(** [remove]: the new category list, for an index that is an integer. *)
Definition remove (idx : Z) (categories : list string) : list string :=
  drop_index idx 0%Z categories.

(** The direction of a move, [-1 | 1]. *)
Inductive Dir : Type := Up | Down.

Definition dir_value (d : Dir) : Z :=
  match d with Up => (-1)%Z | Down => 1%Z end.

Section Arrays.

(** The entries of an array, among them the value [undefined]. *)
Variable A : Type.
Variable undefined : A.

(** The index at which [splice(start, ...)] works on an array of [len]
    entries: a negative [start] counts from the end. *)
Definition splice_start (start : Z) (len : nat) : nat :=
  if (start <? 0)%Z then Z.to_nat (Z.max (Z.of_nat len + start) 0)
  else Z.to_nat (Z.min start (Z.of_nat len)).

(** [next.splice(start, 1)]: the entries removed and the array left. *)
Definition splice_delete (start : Z) (l : list A) : list A * list A :=
  let s := splice_start start (List.length l) in
  (firstn 1 (skipn s l), (firstn s l ++ skipn (S s) l)%list).

(** [next.splice(start, 0, c)] *)
Definition splice_insert (start : Z) (c : A) (l : list A) : list A :=
  let s := splice_start start (List.length l) in
  (firstn s l ++ c :: skipn s l)%list.

(** [move]: the new category list, for an index that is an integer.  The
    entry moved is the first of those removed, or [undefined] when none
    is. *)
Definition move (idx : Z) (dir : Dir) (categories : list A) : list A :=
  let j := (idx + dir_value dir)%Z in
  if (j <? 0)%Z || (Z.of_nat (List.length categories) <=? j)%Z
  then categories
  else
    let '(removed, next) := splice_delete idx categories in
    let c := hd undefined removed in
    splice_insert j c next.

End Arrays.

(** ** Notions used in the statements, continued *)

(** The record the CSV importer makes, as its [n]-th record, of the line
    the encoder writes of an item. *)
Definition reimported (uid : nat -> string) (now : nat -> Z)
    (categories : list string) (n : nat) (it : Item) : Item :=
  {| id := uid n;
     name := trim (name it);
     quantity := Some (trim (nullish (quantity it) ""));
     unit := Some (trim (nullish (unit it) ""));
     category := normalizeCategory (category it) categories;
     notes := Some (trim (nullish (notes it) ""));
     have := Some (flag (have it));
     checked := Some (flag (checked it));
     createdAt := Some (now n) |}.

(** An item as the producers leave it: a name that is not empty, texts
    without white space around them, flags that are defined, and a
    category that the normalizer keeps. *)
Definition settled (categories : list string) (it : Item) : Prop :=
  name it <> "" /\ trim (name it) = name it /\
  (exists q, quantity it = Some q /\ trim q = q) /\
  (exists u, unit it = Some u /\ trim u = u) /\
  (exists t, notes it = Some t /\ trim t = t) /\
  (exists b, have it = Some b) /\ (exists b, checked it = Some b) /\
  normalizeCategory (category it) categories = category it.

(** The same item with another identifier and time of creation. *)
Definition restamp (i : string) (t : Z) (it : Item) : Item :=
  mkItem i (name it) (quantity it) (unit it) (category it) (notes it)
         (have it) (checked it) (Some t).

(** The text is free of double quotes and of carriage returns. *)
Definition plain_text (s : string) : bool :=
  all_chars (fun c => negb (Ascii.eqb c dquote) && negb (Ascii.eqb c CR)) s.

(** The column names of a text: the fields of its first row, trimmed and in
    lower case. *)
Definition header_of (text : string) : list string :=
  map (fun h => toLowerCase (trim h)) (hd [] (parse_rows text)).

(** The items of a list that have the key [k]. *)
Definition with_key (k : string) (items : list Item) : list Item :=
  filter (fun y => String.eqb (key y) k) items.

(** The flags of the record [v] kept for the key [k] are those of all the
    items of that key in [done]. *)
Definition flags_of_all (done : list Item) (k : string) (v : Item) : Prop :=
  (have v = Some true <->
   Forall (fun y => have y = Some true) (with_key k done)) /\
  (checked v = Some true <->
   Forall (fun y => checked y = Some true) (with_key k done)).

(** The field holds the word [w] somewhere, up to the case of the
    field. *)
Definition holds_ci (field : option string) (w : string) : Prop :=
  exists s pre mid post,
    field = Some s /\ s = pre ++ mid ++ post /\
    toLowerCase mid = toLowerCase w.

(** A patch of the one property [checked]. *)
Definition patch_checked (b : bool) : Patch :=
  mkPatch None None None None None None None (Some (Some b)) None.

(** The patch that does what [p1] and then [p2] do. *)
Definition patch_then (p1 p2 : Patch) : Patch :=
  {| p_id := match p_id p2 with Some v => Some v | None => p_id p1 end;
     p_name := match p_name p2 with Some v => Some v | None => p_name p1 end;
     p_quantity := match p_quantity p2 with Some v => Some v | None => p_quantity p1 end;
     p_unit := match p_unit p2 with Some v => Some v | None => p_unit p1 end;
     p_category := match p_category p2 with Some v => Some v | None => p_category p1 end;
     p_notes := match p_notes p2 with Some v => Some v | None => p_notes p1 end;
     p_have := match p_have p2 with Some v => Some v | None => p_have p1 end;
     p_checked := match p_checked p2 with Some v => Some v | None => p_checked p1 end;
     p_createdAt := match p_createdAt p2 with Some v => Some v | None => p_createdAt p1 end |}.

(** The patch that the edit form saves: the five fields of the form. *)
Definition edit_patch (form : Item) : Patch :=
  {| p_id := None;
     p_name := Some (name form);
     p_quantity := Some (quantity form);
     p_unit := Some (unit form);
     p_category := Some (category form);
     p_notes := Some (notes form);
     p_have := None;
     p_checked := None;
     p_createdAt := None |}.

(** * Properties *)

(** ** Strings *)

Lemma append_nil_r (s : string) : s ++ "" = s.
Proof. induction s as [|c s IH]; simpl; [reflexivity | now rewrite IH]. Qed.

Lemma append_assoc (a b c : string) : (a ++ b) ++ c = a ++ (b ++ c).
Proof. induction a as [|x a IH]; simpl; [reflexivity | now rewrite IH]. Qed.

Lemma length_append (a b : string) :
  String.length (a ++ b) = String.length a + String.length b.
Proof. induction a as [|x a IH]; simpl; [reflexivity | now rewrite IH]. Qed.

Lemma nonempty_false (s : string) : nonempty s = false <-> s = "".
Proof. destruct s; simpl; split; congruence. Qed.

Lemma nonempty_true (s : string) : nonempty s = true <-> s <> "".
Proof. destruct s; simpl; split; congruence. Qed.

(** ** CSV decode: the scanning loop *)

Lemma scan_cons (st : Scanner) (c : ascii) (rest : string) :
  scan st (String c rest) =
  scan (fst (scan_step st c (head_char rest)))
       (if snd (scan_step st c (head_char rest))
        then match rest with String _ rest' => rest' | "" => rest end
        else rest).
Proof.
  simpl. destruct (scan_step st c (head_char rest)) as [st' [|]]; simpl;
    destruct rest; reflexivity.
Qed.

Lemma scan_terminator (st : Scanner) (c : ascii) (rest : string) :
  inQuotes st = false ->
  is_terminator c = true ->
  scan st (String c rest) = scan (end_of_line st) (after_terminator c rest).
Proof.
  intros Hq Ht. rewrite scan_cons. unfold scan_step. rewrite Hq.
  assert (Hd : Ascii.eqb c dquote = false).
  { unfold is_terminator in Ht. apply Bool.orb_true_iff in Ht.
    destruct Ht as [H|H]; apply Ascii.eqb_eq in H; subst; reflexivity. }
  assert (Hc : Ascii.eqb c "," = false).
  { unfold is_terminator in Ht. apply Bool.orb_true_iff in Ht.
    destruct Ht as [H|H]; apply Ascii.eqb_eq in H; subst; reflexivity. }
  rewrite Hd, Hc, Ht. simpl.
  destruct rest as [|d rest']; simpl.
  - rewrite Bool.andb_false_r. reflexivity.
  - destruct (Ascii.eqb c CR && Ascii.eqb d LF); reflexivity.
Qed.

(** C1 (as amended).  Outside quotes, a line terminator finishes the row
    exactly when no row was finished before it (it is the first row
    boundary) or the row gathered, with the field just ended, has more than
    one field: the scan goes on with that row added to the rows and a fresh
    row.  Otherwise no row is started: the field just ended joins the
    current row, and the fields that follow go on into it. *)
Theorem parseCSV_row_boundary (st : Scanner) (c : ascii) (rest : string) :
  inQuotes st = false ->
  is_terminator c = true ->
  ((rows st = [] \/ 1 < List.length (row st ++ [field st])%list) ->
   scan st (String c rest) =
   scan (mkScanner (rows st ++ [row st ++ [field st]])%list [] "" false)
        (after_terminator c rest)) /\
  (~ (rows st = [] \/ 1 < List.length (row st ++ [field st])%list) ->
   scan st (String c rest) =
   scan (mkScanner (rows st) (row st ++ [field st])%list "" false)
        (after_terminator c rest)).
Proof.
  intros Hq Ht. rewrite (scan_terminator st c rest Hq Ht).
  unfold end_of_line, pushRow, pushField. simpl. rewrite Hq.
  split; intros H.
  - assert (E : ((1 <? List.length (row st ++ [field st])%list)%nat
                 || (List.length (rows st) =? 0)%nat) = true).
    { apply Bool.orb_true_iff. destruct H as [H|H].
      - right. rewrite H. reflexivity.
      - left. apply Nat.ltb_lt. exact H. }
    rewrite E. reflexivity.
  - assert (E : ((1 <? List.length (row st ++ [field st])%list)%nat
                 || (List.length (rows st) =? 0)%nat) = false).
    { apply Bool.orb_false_iff. split.
      - apply Nat.ltb_ge. apply Nat.nlt_ge. intro L. apply H. right. exact L.
      - apply Nat.eqb_neq. intro L. apply H. left.
        destruct (rows st); [reflexivity | discriminate]. }
    rewrite E. reflexivity.
Qed.

(** An instance of C1, at the two terminators of the text made of the
    lines [a], [b] and [c]: the first one ends the row of [a] (no row
    before it); the second one does not end the row of [b] (one field, and
    a row before it), and [c] goes on into that row. *)
Lemma parseCSV_row_boundary_witness :
  scan (mkScanner [] [] "a" false) (String LF (String "b" (String LF "c")))
  = scan (mkScanner [["a"]] [] "" false) (String "b" (String LF "c")) /\
  scan (mkScanner [["a"]] [] "b" false) (String LF "c")
  = scan (mkScanner [["a"]] ["b"] "" false) "c".
Proof.
  split.
  - apply (proj1 (parseCSV_row_boundary (mkScanner [] [] "a" false) LF
                    (String "b" (String LF "c")) eq_refl eq_refl)).
    left. reflexivity.
  - apply (proj2 (parseCSV_row_boundary (mkScanner [["a"]] [] "b" false) LF
                    "c" eq_refl eq_refl)).
    simpl. intros [H|H]; [discriminate | lia].
Defined.

(** C1 (as stated) fails: in the text [a] followed by a line feed, the
    terminator is the first row boundary and the row has the one field
    [a]; the row is finished all the same. *)
Lemma parseCSV_row_boundary_as_specified_fails : ~ row_boundary_as_specified.
Proof.
  intros H. specialize (H "a" LF None eq_refl eq_refl).
  assert (F : row_finished (scan scanner0 "a")
                (fst (scan_step (scan scanner0 "a") LF None))).
  { split; reflexivity. }
  destruct (H F) as [C|C].
  - apply C. reflexivity.
  - simpl in C. lia.
Qed.

(** The rows of the text made of the lines [a], [b] and [c]. *)
Example parse_rows_three_lines :
  parse_rows ("a" ++ str1 LF ++ "b" ++ str1 LF ++ "c") = [["a"]; ["b"; "c"]].
Proof. reflexivity. Qed.

(** A table of one column: the terminator after the header is the first
    boundary and ends its row; after it a terminator ends a row only once
    two values have gathered in it, and the header names the first of
    them. *)
Example parseCSV_single_column :
  parse_rows ("name" ++ str1 LF ++ "a" ++ str1 LF ++ "b" ++ str1 LF ++ "c")
  = [["name"]; ["a"; "b"]; ["c"]] /\
  parseCSV ("name" ++ str1 LF ++ "a" ++ str1 LF ++ "b" ++ str1 LF ++ "c")
  = [[("name", "a")]; [("name", "c")]].
Proof. split; reflexivity. Qed.

(** A quoted field with a comma and a line end in it, and both kinds of
    line ends between the rows. *)
Example parseCSV_quoted_field :
  parseCSV ("Name,Qty" ++ String CR (String LF
            (String dquote ("a," ++ String LF ("b" ++ String dquote
            (",1" ++ String LF "c,2"))))))
  = [ [("name", "a," ++ String LF "b"); ("qty", "1")];
      [("name", "c"); ("qty", "2")] ].
Proof. reflexivity. Qed.

(** ** Category normalizer *)

(** The rule of the normalizer on a label that is not the empty string. *)
Lemma normalizeCategory_nonempty (c : string) (categories : list string) :
  c <> "" ->
  (forall found,
      find (fun cat => String.eqb (toLowerCase cat) (toLowerCase (trim c)))
           categories = Some found ->
      normalizeCategory c categories = found) /\
  (find (fun cat => String.eqb (toLowerCase cat) (toLowerCase (trim c)))
        categories = None ->
   normalizeCategory c categories = trim c).
Proof.
  intros Hc. unfold normalizeCategory.
  apply nonempty_true in Hc. rewrite Hc. simpl.
  split.
  - intros found Hf. rewrite Hf. reflexivity.
  - intros Hf. rewrite Hf. reflexivity.
Qed.

Lemma normalizeCategory_empty (categories : list string) :
  normalizeCategory "" categories = "Other".
Proof. reflexivity. Qed.

Example normalizeCategory_examples :
  normalizeCategory "produce" ["Produce"; "Dairy"] = "Produce" /\
  normalizeCategory "Snacks" ["Produce"] = "Snacks".
Proof. split; reflexivity. Qed.

(** C2, at the failing input.  A label made of one space is not the empty
    string, so the test for the default is passed over; no category in
    lower case is the empty string, and the label comes back trimmed: the
    empty string, where the claim has [Other].  The CSV importer hands such
    a label over as it is, and so makes a record whose category is
    empty. *)
Theorem normalizeCategory_blank_label :
  normalizeCategory " " ["Produce"; "Dairy"] = "" /\
  forall (uid : nat -> string) (now : nat -> Z),
    map category
      (import_records uid now ["Produce"; "Dairy"] 0
         ("name,category" ++ str1 LF ++ "milk, "))
    = [""].
Proof. split; [reflexivity | intros; reflexivity]. Qed.

(** ** Producers: the names of the records *)

Lemma trimEnd_idempotent (s : string) : trimEnd (trimEnd s) = trimEnd s.
Proof.
  induction s as [|c s IH]; simpl; [reflexivity|].
  destruct (trimEnd s) as [|d r] eqn:E.
  - destruct (is_ws c) eqn:W; simpl; [reflexivity | now rewrite W].
  - simpl in IH |- *. rewrite IH. reflexivity.
Qed.

Lemma trimStart_head (s : string) :
  trimStart s = "" \/ exists c r, trimStart s = String c r /\ is_ws c = false.
Proof.
  induction s as [|c s IH]; simpl; [now left|].
  destruct (is_ws c) eqn:W; [exact IH | right; now exists c, s].
Qed.

Lemma trim_idempotent (s : string) : trim (trim s) = trim s.
Proof.
  unfold trim. destruct (trimStart_head s) as [E | (c & r & E & W)].
  - rewrite E. reflexivity.
  - rewrite E.
    assert (H : exists r', trimEnd (String c r) = String c r').
    { simpl. destruct (trimEnd r); [rewrite W; exists ""|eexists]; reflexivity. }
    destruct H as [r' Er']. rewrite Er'. simpl trimStart. rewrite W.
    rewrite <- Er'. apply trimEnd_idempotent.
Qed.

Lemma map_from_In {A B : Type} (f : nat -> A -> B) (l : list A) :
  forall n y, In y (map_from f n l) -> exists i x, In x l /\ y = f i x.
Proof.
  induction l as [|x l IH]; simpl; intros n y H; [contradiction|].
  destruct H as [H|H].
  - exists n, x. split; [now left | now symmetry].
  - destruct (IH _ _ H) as (i & x' & Hin & E). exists i, x'. split; [now right | exact E].
Qed.

(** Every record the CSV importer makes has a name that is not empty once
    trimmed. *)
Lemma importCSV_names_nonempty (uid : nat -> string) (now : nat -> Z)
    (categories : list string) (n : nat) (text : string) :
  Forall (fun it => trim (name it) <> "")
         (import_records uid now categories n text).
Proof.
  apply Forall_forall. intros it Hin. unfold import_records in Hin.
  apply filter_In in Hin. destruct Hin as [Hin Hne].
  apply map_from_In in Hin. destruct Hin as (i & r & _ & E).
  apply nonempty_true in Hne. subst it. simpl in *.
  rewrite trim_idempotent. exact Hne.
Qed.

(** C3, at the failing input.  The line made of a bar and a category has
    an empty left part; it is not empty itself, so it is kept, and the
    record made of it has the empty name: [handlePaste] has no test on the
    name, where [importCSV] filters on it and [addItem] returns early.  The
    record enters the collection. *)
Theorem handlePaste_keeps_nameless_record :
  forall (uid : nat -> string) (now : nat -> Z) (prev : list Item) (n : nat),
    handlePaste uid now prev n "| Meat"
    = mkItem (uid n) "" (Some "") (Some "") "Meat" None (Some false)
             (Some false) (Some (now n)) :: prev.
Proof. intros. reflexivity. Qed.

(** ** Consolidator *)

Lemma strict_eqb_refl (a : option string) : strict_eqb a a = true.
Proof. destruct a; simpl; [apply String.eqb_refl | reflexivity]. Qed.

Lemma map_get_set_same (k : string) (v : Item) (m : ItemMap) :
  map_get k (map_set k v m) = Some v.
Proof.
  induction m as [|[k' v'] m IH]; simpl.
  - now rewrite String.eqb_refl.
  - destruct (String.eqb k' k) eqn:E; simpl.
    + now rewrite String.eqb_refl.
    + now rewrite E.
Qed.

Lemma map_get_None (k : string) (m : ItemMap) :
  map_get k m = None <-> ~ In k (map fst m).
Proof.
  induction m as [|[k' v'] m IH]; simpl.
  - split; [intros _ [] | reflexivity].
  - destruct (String.eqb_spec k' k) as [E|E].
    + split; [discriminate | intros H; exfalso; apply H; now left].
    + rewrite IH. split.
      * intros H [F|F]; [now apply E | now apply H].
      * intros H F. apply H. now right.
Qed.

Lemma map_get_Some_In (k : string) (v : Item) (m : ItemMap) :
  map_get k m = Some v -> In (k, v) m.
Proof.
  induction m as [|[k' v'] m IH]; simpl; [discriminate|].
  destruct (String.eqb_spec k' k) as [E|E].
  - intros H. injection H as ->. subst. now left.
  - intros H. right. now apply IH.
Qed.

Lemma map_set_new (k : string) (v : Item) (m : ItemMap) :
  map_get k m = None -> map_set k v m = (m ++ [(k, v)])%list.
Proof.
  induction m as [|[k' v'] m IH]; simpl; [reflexivity|].
  destruct (String.eqb k' k); [discriminate|].
  intros H. now rewrite IH.
Qed.

Lemma map_set_keys (k : string) (v v0 : Item) (m : ItemMap) :
  map_get k m = Some v0 -> map fst (map_set k v m) = map fst m.
Proof.
  induction m as [|[k' v'] m IH]; simpl; [discriminate|].
  destruct (String.eqb_spec k' k) as [E|E]; simpl.
  - intros _. now subst.
  - intros H. now rewrite IH.
Qed.

Lemma map_set_Forall (P : string * Item -> Prop) (k : string) (v : Item)
    (m : ItemMap) :
  Forall P m -> P (k, v) -> Forall P (map_set k v m).
Proof.
  intros Hm Hkv. induction Hm as [|[k' v'] m Hx Hm IH]; simpl.
  - now constructor.
  - destruct (String.eqb k' k); constructor; assumption.
Qed.

Section ConsolidatorProperties.

Context {RT : NumberRuntime}.

Ltac merge_cases :=
  unfold merge;
  repeat match goal with
         | |- context [if ?b then _ else _] => destruct b
         end;
  reflexivity.

Lemma merge_name (cur it : Item) : name (merge cur it) = name cur.
Proof. merge_cases. Qed.

Lemma merge_category (cur it : Item) : category (merge cur it) = category cur.
Proof. merge_cases. Qed.

Lemma merge_id (cur it : Item) : id (merge cur it) = id cur.
Proof. merge_cases. Qed.

Lemma merge_createdAt (cur it : Item) : createdAt (merge cur it) = createdAt cur.
Proof. merge_cases. Qed.

Lemma merge_unit (cur it : Item) : unit (merge cur it) = unit cur.
Proof. merge_cases. Qed.

Lemma merge_have (cur it : Item) :
  have (merge cur it) = js_and (have cur) (have it).
Proof. merge_cases. Qed.

Lemma merge_checked (cur it : Item) :
  checked (merge cur it) = js_and (checked cur) (checked it).
Proof. merge_cases. Qed.

Lemma merge_key (cur it : Item) : key (merge cur it) = key cur.
Proof. unfold key. now rewrite merge_name, merge_category. Qed.

Lemma consolidate_step_merge (m : ItemMap) (cur it : Item) :
  map_get (key it) m = Some cur ->
  consolidate_step m it = map_set (key it) (merge cur it) m.
Proof. intros H. unfold consolidate_step. now rewrite H. Qed.

Lemma consolidate_step_new (m : ItemMap) (it : Item) :
  map_get (key it) m = None ->
  consolidate_step m it = (m ++ [(key it, it)])%list.
Proof. intros H. unfold consolidate_step. rewrite H. now apply map_set_new. Qed.

Lemma js_and_true (a b : option bool) :
  js_and a b = Some true <-> a = Some true /\ b = Some true.
Proof.
  unfold js_and, flag. destruct a as [[|]|]; split; intros H;
    try (destruct H; congruence); try congruence; auto.
Qed.

(** C6.  When an item is merged into the record kept for its key, the
    [have] flag of the merged record is true only if it is true in both,
    and so is its [checked] flag; a kept record with [have] true and an
    incoming item with [have] false give [have] false. *)
Theorem consolidate_flags_and (m : ItemMap) (cur it : Item) :
  map_get (key it) m = Some cur ->
  map_get (key it) (consolidate_step m it) = Some (merge cur it) /\
  (have (merge cur it) = Some true <->
   have cur = Some true /\ have it = Some true) /\
  (checked (merge cur it) = Some true <->
   checked cur = Some true /\ checked it = Some true) /\
  (have cur = Some true -> have it = Some false ->
   have (merge cur it) = Some false).
Proof.
  intros H. rewrite (consolidate_step_merge m cur it H).
  rewrite map_get_set_same, merge_have, merge_checked.
  split; [reflexivity|].
  split; [apply js_and_true|].
  split; [apply js_and_true|].
  intros Hc Hi. rewrite Hc, Hi. reflexivity.
Qed.

(** C5.  When an item is merged into the record kept for its key, both
    with a quantity that is not empty and with the same unit: if both
    quantities parse to numbers, the quantity of the merged record is
    their sum as a string, the unit is as it was and the notes are
    untouched; if one of them does not parse, the quantity is as it was
    and the raw quantity of the incoming item is appended to the notes,
    after a semicolon when the notes were not empty. *)
Theorem consolidate_numeric_merge (m : ItemMap) (cur it : Item)
    (qc qi : string) :
  map_get (key it) m = Some cur ->
  quantity cur = Some qc -> qc <> "" ->
  quantity it = Some qi -> qi <> "" ->
  unit cur = unit it ->
  map_get (key it) (consolidate_step m it) = Some (merge cur it) /\
  (isNaN (parseFloat qc) = false -> isNaN (parseFloat qi) = false ->
   quantity (merge cur it)
   = Some (num_to_string (num_add (parseFloat qc) (parseFloat qi))) /\
   unit (merge cur it) = unit cur /\
   notes (merge cur it) = notes cur) /\
  (isNaN (parseFloat qc) = true \/ isNaN (parseFloat qi) = true ->
   quantity (merge cur it) = quantity cur /\
   unit (merge cur it) = unit cur /\
   notes (merge cur it)
   = Some (if truthy (notes cur) then nullish (notes cur) "" ++ "; " ++ qi
           else qi)).
Proof.
  intros H Hqc Nc Hqi Ni Hu.
  rewrite (consolidate_step_merge m cur it H), map_get_set_same.
  split; [reflexivity|].
  apply nonempty_true in Nc. apply nonempty_true in Ni.
  unfold merge. rewrite Hqc, Hqi, Hu, strict_eqb_refl. simpl truthy.
  rewrite Nc, Ni. simpl.
  split.
  - intros -> ->. simpl. rewrite <- Hu. auto.
  - intros Hn.
    assert (E : negb (isNaN (parseFloat qc)) && negb (isNaN (parseFloat qi))
                = false).
    { destruct Hn as [-> | ->]; simpl;
        [reflexivity | apply Bool.andb_false_r]. }
    rewrite E. simpl. rewrite <- Hu.
    split; [exact Hqc|]. split; [reflexivity|].
    unfold join_truthy. simpl. rewrite Ni.
    destruct (notes cur) as [nc|]; simpl.
    + destruct nc; simpl; reflexivity.
    + reflexivity.
Qed.

(** *** The map of the loop *)

Lemma consolidate_step_ok (m : ItemMap) (it : Item) :
  map_ok m -> map_ok (consolidate_step m it).
Proof.
  intros [Hnd Hk]. destruct (map_get (key it) m) as [cur|] eqn:G.
  - rewrite (consolidate_step_merge m cur it G). split.
    + now rewrite (map_set_keys _ _ cur _ G).
    + apply map_set_Forall; [exact Hk|]. simpl. rewrite merge_key.
      apply map_get_Some_In in G.
      rewrite Forall_forall in Hk. exact (Hk _ G).
  - rewrite (consolidate_step_new m it G). split.
    + rewrite map_app. simpl.
      apply NoDup_app; [exact Hnd | constructor; [intros [] | constructor] |].
      intros k Hin [E|[]]. subst k. apply map_get_None in G. now apply G.
    + apply Forall_app. split; [exact Hk | now constructor].
Qed.

Lemma consolidate_fold_ok (items : list Item) :
  forall m, map_ok m -> map_ok (fold_left consolidate_step items m).
Proof.
  induction items as [|it items IH]; simpl; intros m Hm; [exact Hm|].
  apply IH. now apply consolidate_step_ok.
Qed.

Lemma consolidate_map_ok (items : list Item) : map_ok (consolidate_map items).
Proof.
  apply consolidate_fold_ok. split; [constructor | constructor].
Qed.

(** Records with keys that are new and distinct are added as they are. *)
Lemma consolidate_fold_fresh (items : list Item) :
  forall m,
    NoDup (map fst m ++ map key items) ->
    fold_left consolidate_step items m
    = (m ++ map (fun v => (key v, v)) items)%list.
Proof.
  induction items as [|it items IH]; simpl; intros m Hnd.
  - now rewrite app_nil_r.
  - assert (G : map_get (key it) m = None).
    { apply map_get_None. intros Hin.
      apply NoDup_remove_2 in Hnd. apply Hnd.
      apply in_or_app. now left. }
    rewrite (consolidate_step_new m it G).
    rewrite IH.
    + rewrite <- app_assoc. reflexivity.
    + rewrite map_app. simpl. rewrite <- app_assoc. exact Hnd.
Qed.

Lemma map_ok_values (m : ItemMap) :
  Forall (fun kv => key (snd kv) = fst kv) m ->
  map key (map snd m) = map fst m /\
  map (fun v => (key v, v)) (map snd m) = m.
Proof.
  induction 1 as [|[k v] m Hx Hm [IH1 IH2]]; simpl; [split; reflexivity|].
  simpl in Hx. rewrite IH1, IH2, Hx. split; reflexivity.
Qed.

(** C8.  Consolidating the result of a consolidation gives that result
    again. *)
Theorem consolidate_idempotent (items : list Item) :
  consolidateDuplicates (consolidateDuplicates items)
  = consolidateDuplicates items.
Proof.
  unfold consolidateDuplicates, map_values.
  destruct (consolidate_map_ok items) as [Hnd Hk].
  destruct (map_ok_values _ Hk) as [E1 E2].
  unfold consolidate_map at 1.
  rewrite consolidate_fold_fresh.
  - simpl. now rewrite E2.
  - simpl. now rewrite E1.
Qed.

End ConsolidatorProperties.

(** *** Instances on the IEEE 754 runtime *)

(** An instance of C6: a record of milk that is had and one that is not. *)
Lemma consolidate_flags_and_witness :
  let a := mkItem "1" "milk" (Some "1") (Some "gal") "Dairy" (Some "")
                  (Some true) (Some true) (Some 0%Z) in
  let b := mkItem "2" "Milk" (Some "2") (Some "gal") "dairy" (Some "")
                  (Some false) (Some true) (Some 1%Z) in
  map_get (key b) (consolidate_map (RT := ieee754) [a; b])
  = Some (merge (RT := ieee754) a b) /\
  have (merge (RT := ieee754) a b) = Some false /\
  checked (merge (RT := ieee754) a b) = Some true.
Proof.
  intros a b.
  destruct (consolidate_flags_and (RT := ieee754) [(key a, a)] a b eq_refl)
    as [H1 [_ [H3 H4]]].
  split; [exact H1|]. split.
  - apply H4; reflexivity.
  - apply H3. split; reflexivity.
Defined.

(** An instance of C5: the quantities 1 and 2 of two records of milk by the
    gallon merge to the quantity 3. *)
Lemma consolidate_numeric_merge_witness :
  let a := mkItem "1" "milk" (Some "1") (Some "gal") "Dairy" (Some "")
                  (Some false) (Some false) (Some 0%Z) in
  let b := mkItem "2" "milk" (Some "2") (Some "gal") "Dairy" (Some "")
                  (Some false) (Some false) (Some 1%Z) in
  map_get (key b) (consolidate_map (RT := ieee754) [a; b])
  = Some (merge (RT := ieee754) a b) /\
  quantity (merge (RT := ieee754) a b) = Some "3" /\
  unit (merge (RT := ieee754) a b) = Some "gal".
Proof.
  intros a b.
  assert (N1 : "1" <> "") by discriminate.
  assert (N2 : "2" <> "") by discriminate.
  destruct (consolidate_numeric_merge (RT := ieee754) [(key a, a)] a b "1" "2"
              eq_refl eq_refl N1 eq_refl N2 eq_refl) as [H1 [H2 _]].
  split; [exact H1|].
  assert (P1 : @isNaN ieee754 (@parseFloat ieee754 "1") = false)
    by (vm_compute; reflexivity).
  assert (P2 : @isNaN ieee754 (@parseFloat ieee754 "2") = false)
    by (vm_compute; reflexivity).
  destruct (H2 P1 P2) as [Hq [Hu _]].
  split.
  - rewrite Hq. vm_compute. reflexivity.
  - exact Hu.
Defined.

Example consolidate_milk :
  consolidateDuplicates (RT := ieee754)
    [ mkItem "1" "milk" (Some "1") (Some "gal") "Dairy" (Some "")
             (Some true) (Some false) (Some 0%Z);
      mkItem "2" "milk" (Some "2") (Some "gal") "Dairy" (Some "")
             (Some false) (Some false) (Some 1%Z) ]
  = [ mkItem "1" "milk" (Some "3") (Some "gal") "Dairy" (Some "")
             (Some false) (Some false) (Some 0%Z) ].
Proof. vm_compute. reflexivity. Qed.

(** Quantities that do not parse, and units that differ, leave the second
    quantity in the notes. *)
Example consolidate_notes :
  consolidateDuplicates (RT := ieee754)
    [ mkItem "1" "milk" (Some "one") (Some "gal") "Dairy" (Some "cold")
             (Some false) (Some false) (Some 0%Z);
      mkItem "2" "milk" (Some "two") (Some "gal") "Dairy" (Some "")
             (Some false) (Some false) (Some 1%Z);
      mkItem "3" "milk" (Some "3") (Some "l") "Dairy" (Some "fresh")
             (Some false) (Some false) (Some 2%Z) ]
  = [ mkItem "1" "milk" (Some "one") (Some "gal") "Dairy"
             (Some "cold; two; 3 l; fresh")
             (Some false) (Some false) (Some 0%Z) ].
Proof. vm_compute. reflexivity. Qed.

(** C7, at the failing input.  The key of the loop is one string, the name
    and the category in lower case with a bar between them, so two records
    whose pairs of name and category differ have the same key when the bar
    can be read at two places: the second record is merged into the first,
    and one record comes out where the claim has two. *)
Theorem consolidate_key_collision :
  forall (RT : NumberRuntime),
    let a := mkItem "1" "a|b" (Some "") (Some "") "c" (Some "")
                    (Some false) (Some false) (Some 0%Z) in
    let b := mkItem "2" "a" (Some "") (Some "") "b|c" (Some "")
                    (Some false) (Some false) (Some 1%Z) in
    (toLowerCase (name a), toLowerCase (category a))
    <> (toLowerCase (name b), toLowerCase (category b)) /\
    key a = key b /\
    consolidateDuplicates [a; b]
    = [ mkItem "1" "a|b" (Some "") (Some "") "c" (Some "")
               (Some false) (Some false) (Some 0%Z) ].
Proof.
  intros RT a b. split; [discriminate|]. split; reflexivity.
Qed.

(** ** Regular expressions: literal words *)

Lemma rmatch_lit_ci (n : nat) (w : string) :
  forall s caps k,
    rmatch n (lit_ci w) s caps k
    = match strip_ci w s with Some s' => k s' caps | None => None end.
Proof.
  induction w as [|c w IH]; intros s caps k; simpl; [reflexivity|].
  destruct s as [|d s]; [reflexivity|].
  destruct (chr_ci c d); [apply IH | reflexivity].
Qed.

Lemma fold_case_nil (s : string) : fold_case s = "" -> s = "".
Proof. destruct s; simpl; [reflexivity | discriminate]. Qed.

Lemma strip_ci_spec (w : string) :
  forall s s',
    strip_ci w s = Some s' <->
    exists mid, s = mid ++ s' /\ fold_case mid = fold_case w.
Proof.
  induction w as [|c w IH]; intros s s'; simpl.
  - split.
    + intros H. injection H as ->. exists "". split; reflexivity.
    + intros (mid & -> & Hm). apply fold_case_nil in Hm. now subst.
  - destruct s as [|d s].
    + split; [discriminate|].
      intros (mid & Hs & Hm). destruct mid; simpl in *; discriminate.
    + unfold chr_ci at 1. destruct (Ascii.eqb_spec (canonicalize d) (canonicalize c)) as [E|E].
      * rewrite IH. split.
        -- intros (mid & -> & Hm). exists (String d mid). simpl.
           rewrite E, Hm. split; reflexivity.
        -- intros (mid & Hs & Hm). destruct mid as [|x mid]; [discriminate|].
           simpl in Hs, Hm. injection Hs as -> ->. injection Hm as _ Hm.
           exists mid. split; [reflexivity | exact Hm].
      * split; [discriminate|].
        intros (mid & Hs & Hm). destruct mid as [|x mid]; [discriminate|].
        simpl in Hs, Hm. injection Hs as -> ->. injection Hm as Hc _.
        contradiction.
Qed.

Lemma rsearch_some (n : nat) (r : regex) (s : string) :
  (exists caps, rsearch n r s = Some caps) <->
  exists pre suf,
    s = pre ++ suf /\
    exists caps, rmatch n r suf [] (fun _ c => Some c) = Some caps.
Proof.
  induction s as [|d s IH].
  - simpl. split.
    + intros [caps H]. exists "", "". split; [reflexivity|].
      destruct (rmatch n r "" [] (fun _ c => Some c)) as [c0|];
        [now exists c0 | discriminate].
    + intros (pre & suf & Hs & caps & Hm).
      destruct pre; [|discriminate]. simpl in Hs. subst suf.
      rewrite Hm. now exists caps.
  - cbn [rsearch].
    destruct (rmatch n r (String d s) [] (fun _ c => Some c)) as [c0|] eqn:M.
    + split; [|intros _; now exists c0].
      intros _. exists "", (String d s). split; [reflexivity | now exists c0].
    + rewrite IH. split.
      * intros (pre & suf & -> & Hm). exists (String d pre), suf.
        split; [reflexivity | exact Hm].
      * intros (pre & suf & Hs & caps & Hm). destruct pre as [|x pre].
        -- simpl in Hs. subst suf. rewrite M in Hm. discriminate.
        -- simpl in Hs. injection Hs as -> ->. exists pre, suf.
           split; [reflexivity | now exists caps].
Qed.

Lemma truthy_rx_at (n : nat) (s : string) :
  (exists caps, rmatch n truthy_rx s [] (fun _ c => Some c) = Some caps) <->
  exists w s', In w truthy_words /\ strip_ci w s = Some s'.
Proof.
  unfold truthy_rx. cbn [rmatch]. rewrite !rmatch_lit_ci.
  unfold truthy_words. split.
  - intros [caps H].
    destruct (strip_ci "true" s) as [s1|] eqn:E1;
      [exists "true", s1; split; [simpl; tauto | exact E1]|].
    destruct (strip_ci "yes" s) as [s2|] eqn:E2;
      [exists "yes", s2; split; [simpl; tauto | exact E2]|].
    destruct (strip_ci "y" s) as [s3|] eqn:E3;
      [exists "y", s3; split; [simpl; tauto | exact E3]|].
    destruct (strip_ci "1" s) as [s4|] eqn:E4;
      [exists "1", s4; split; [simpl; tauto | exact E4]|].
    discriminate H.
  - intros (w & s' & Hin & Hw).
    destruct (strip_ci "true" s) as [s1|] eqn:E1; [now exists []|].
    destruct (strip_ci "yes" s) as [s2|] eqn:E2; [now exists []|].
    destruct (strip_ci "y" s) as [s3|] eqn:E3; [now exists []|].
    destruct (strip_ci "1" s) as [s4|] eqn:E4; [now exists []|].
    simpl in Hin.
    destruct Hin as [<-|[<-|[<-|[<-|[]]]]]; congruence.
Qed.

(** The test of [truthy_rx] holds of the values that contain one of its
    words, up to case. *)
Lemma truthy_rx_test (v : string) :
  regex_test truthy_rx v = true <->
  exists w, In w truthy_words /\ contains_ci w v.
Proof.
  unfold regex_test, regex_match, contains_ci.
  transitivity (exists caps, rsearch (String.length v) truthy_rx v = Some caps).
  - destruct (rsearch (String.length v) truthy_rx v) as [c0|].
    + split; [intros _; now exists c0 | reflexivity].
    + split; [discriminate | intros [c H]; discriminate].
  - rewrite rsearch_some. split.
    + intros (pre & suf & -> & Hm). apply truthy_rx_at in Hm.
      destruct Hm as (w & s' & Hin & Hw). apply strip_ci_spec in Hw.
      destruct Hw as (mid & -> & Hm). exists w. split; [exact Hin|].
      now exists pre, mid, s'.
    + intros (w & Hin & pre & mid & post & -> & Hm).
      exists pre, (mid ++ post). split; [reflexivity|].
      apply truthy_rx_at. exists w, post. split; [exact Hin|].
      apply strip_ci_spec. now exists mid.
Qed.

Lemma contains_ci_empty (w : string) : w <> "" -> ~ contains_ci w "".
Proof.
  intros Hw (pre & mid & post & Hs & Hm).
  destruct pre; [|discriminate]. destruct mid; [|discriminate].
  destruct w; [now apply Hw | discriminate].
Qed.

(** C10.  The [have] and [checked] flags of the record made of a decoded
    row are defined, and each is true exactly when the column of its name
    is there and its value contains one of the words [true], [yes], [y]
    and [1] somewhere, up to case; so they are for the values [nay] and
    [2019], and they are false when the column is absent or empty. *)
Theorem importCSV_flags :
  forall (uid : nat -> string) (now : nat -> Z) (categories : list string)
         (n : nat) (r : Obj),
    (have (import_row uid now categories n r)
     = Some (regex_test truthy_rx (or_default (obj_get "have" r) "")) /\
     checked (import_row uid now categories n r)
     = Some (regex_test truthy_rx (or_default (obj_get "checked" r) ""))) /\
    (have (import_row uid now categories n r) = Some true <->
     exists v, obj_get "have" r = Some v /\
               exists w, In w truthy_words /\ contains_ci w v) /\
    (checked (import_row uid now categories n r) = Some true <->
     exists v, obj_get "checked" r = Some v /\
               exists w, In w truthy_words /\ contains_ci w v) /\
    (obj_get "have" r = None \/ obj_get "have" r = Some "" ->
     have (import_row uid now categories n r) = Some false) /\
    (obj_get "checked" r = None \/ obj_get "checked" r = Some "" ->
     checked (import_row uid now categories n r) = Some false) /\
    (obj_get "have" r = Some "nay" ->
     have (import_row uid now categories n r) = Some true) /\
    (obj_get "checked" r = Some "2019" ->
     checked (import_row uid now categories n r) = Some true).
Proof.
  intros uid now categories n r.
  assert (K : forall o : option string,
             Some (regex_test truthy_rx (or_default o "")) = Some true <->
             exists v, o = Some v /\
                       exists w, In w truthy_words /\ contains_ci w v).
  { intros o. split.
    - intros H. injection H as H. apply truthy_rx_test in H.
      destruct o as [v|]; simpl in H.
      + destruct v as [|c v]; simpl in H.
        * destruct H as (w & Hin & Hc). exfalso.
          apply (contains_ci_empty w); [|exact Hc].
          simpl in Hin. destruct Hin as [<-|[<-|[<-|[<-|[]]]]]; discriminate.
        * exists (String c v). split; [reflexivity | exact H].
      + destruct H as (w & Hin & Hc). exfalso.
        apply (contains_ci_empty w); [|exact Hc].
        simpl in Hin. destruct Hin as [<-|[<-|[<-|[<-|[]]]]]; discriminate.
    - intros (v & -> & Hw). f_equal.
      destruct v as [|c v]; simpl.
      + destruct Hw as (w & Hin & Hc). exfalso.
        apply (contains_ci_empty w); [|exact Hc].
        simpl in Hin. destruct Hin as [<-|[<-|[<-|[<-|[]]]]]; discriminate.
      + apply truthy_rx_test. exact Hw. }
  simpl have. simpl checked.
  split; [split; reflexivity|].
  split; [apply K|]. split; [apply K|].
  split; [intros [-> | ->]; reflexivity|].
  split; [intros [-> | ->]; reflexivity|].
  split; intros ->; reflexivity.
Qed.

(** ** CSV codec: the round trip *)

Lemma scan_in_quotes (v : string) :
  forall st rest,
    inQuotes st = true ->
    head_char rest <> Some dquote ->
    scan st (replaceAll dquote (String dquote (str1 dquote)) v
             ++ String dquote rest)
    = scan (mkScanner (rows st) (row st) (field st ++ v) false) rest.
Proof.
  induction v as [|c v IH]; intros st rest Hq Hr.
  - simpl append. rewrite scan_cons. unfold scan_step. rewrite Hq.
    rewrite Ascii.eqb_refl.
    assert (E : next_is dquote (head_char rest) = false).
    { destruct rest as [|d rest]; simpl; [reflexivity|].
      apply Ascii.eqb_neq. intros ->. now apply Hr. }
    rewrite E. simpl. rewrite append_nil_r. reflexivity.
  - simpl replaceAll. destruct (Ascii.eqb_spec c dquote) as [->|Hc].
    + simpl append. rewrite scan_cons. unfold scan_step. rewrite Hq.
      rewrite Ascii.eqb_refl. simpl.
      rewrite IH; [|exact Hq|exact Hr].
      simpl. rewrite append_assoc. reflexivity.
    + simpl append. rewrite scan_cons. unfold scan_step. rewrite Hq.
      apply Ascii.eqb_neq in Hc. rewrite Hc. simpl.
      rewrite IH; [|exact Hq|exact Hr].
      simpl. rewrite append_assoc. reflexivity.
Qed.

Lemma scan_cell (v : string) (st : Scanner) (rest : string) :
  inQuotes st = false ->
  head_char rest <> Some dquote ->
  scan st (csv_quote v ++ rest)
  = scan (mkScanner (rows st) (row st) (field st ++ v) false) rest.
Proof.
  intros Hq Hr. unfold csv_quote. rewrite !append_assoc.
  simpl append. rewrite scan_cons. unfold scan_step. rewrite Hq.
  rewrite Ascii.eqb_refl. simpl.
  rewrite scan_in_quotes; [reflexivity | reflexivity | exact Hr].
Qed.

Lemma concat_cons2 (sep x y : string) (l : list string) :
  String.concat sep (x :: y :: l) = x ++ sep ++ String.concat sep (y :: l).
Proof. reflexivity. Qed.

(** The scan of the cells of a line: all but the last are pushed to the
    row, the last is the field in hand. *)
Lemma scan_cells (vs : list string) :
  forall v st rest,
    inQuotes st = false ->
    field st = "" ->
    head_char rest <> Some dquote ->
    scan st (String.concat "," (map csv_quote (vs ++ [v])) ++ rest)
    = scan (mkScanner (rows st) (row st ++ vs) v false) rest.
Proof.
  induction vs as [|x vs IH]; intros v st rest Hq Hf Hr.
  - cbn [List.app map String.concat].
    rewrite scan_cell; [|exact Hq|exact Hr].
    rewrite Hf, app_nil_r. reflexivity.
  - assert (E : exists y l, map csv_quote (vs ++ [v]) = y :: l).
    { destruct vs; simpl; eauto. }
    destruct E as (y & l & E).
    change (map csv_quote ((x :: vs) ++ [v]))
      with (csv_quote x :: map csv_quote (vs ++ [v])).
    rewrite E, concat_cons2, <- E, !append_assoc.
    rewrite scan_cell; [|exact Hq|discriminate].
    simpl append. rewrite scan_cons. unfold scan_step. simpl.
    rewrite IH; [|reflexivity|reflexivity|exact Hr].
    simpl. rewrite Hf. simpl. rewrite <- app_assoc. reflexivity.
Qed.

Lemma scan_line (it : Item) (st : Scanner) (rest : string) :
  inQuotes st = false ->
  field st = "" ->
  head_char rest <> Some dquote ->
  scan st (csv_line it ++ rest)
  = scan (mkScanner (rows st)
            (row st ++ [ name it; nullish (quantity it) "";
                         nullish (unit it) ""; category it;
                         nullish (notes it) "";
                         if flag (have it) then "TRUE" else "FALSE" ])
            (if flag (checked it) then "TRUE" else "FALSE") false) rest.
Proof.
  intros Hq Hf Hr. unfold csv_line, csv_cells.
  apply (scan_cells [ name it; nullish (quantity it) ""; nullish (unit it) "";
                      category it; nullish (notes it) "";
                      if flag (have it) then "TRUE" else "FALSE" ]
           (if flag (checked it) then "TRUE" else "FALSE") st rest Hq Hf Hr).
Qed.

Lemma concat_following (x : string) (ls : list string) :
  String.concat (str1 LF) (x :: ls) = x ++ following ls.
Proof.
  revert x. induction ls as [|y ls IH]; intros x.
  - simpl. now rewrite append_nil_r.
  - rewrite concat_cons2, IH. reflexivity.
Qed.

Lemma following_head (ls : list string) :
  head_char (following ls) <> Some dquote.
Proof. destruct ls; simpl; discriminate. Qed.

(** The rows read from the lines of the items, after a first line of which
    the scanner holds the fields. *)
Lemma scan_following (items : list Item) :
  forall st,
    inQuotes st = false ->
    row st <> [] ->
    rows (scan_end (scan st (following (map csv_line items))))
    = (rows st ++ (row st ++ [field st]) :: map csv_cells items)%list.
Proof.
  induction items as [|it items IH]; intros st Hq Hrow.
  - simpl. unfold scan_end.
    assert (E : (0 <? List.length (row st))%nat = true).
    { apply Nat.ltb_lt. destruct (row st); [contradiction | simpl; lia]. }
    rewrite E, Bool.orb_true_r. reflexivity.
  - cbn [map following].
    rewrite scan_terminator; [|exact Hq|reflexivity].
    assert (E : end_of_line st
                = mkScanner (rows st ++ [row st ++ [field st]])%list [] ""
                            false).
    { unfold end_of_line, pushRow, pushField. simpl.
      assert (L : (1 <? List.length (row st ++ [field st])%list)%nat = true).
      { apply Nat.ltb_lt. rewrite length_app. simpl.
        destruct (row st); [contradiction | simpl; lia]. }
      rewrite L, Hq. reflexivity. }
    rewrite E.
    assert (A : after_terminator LF (csv_line it ++ following (map csv_line items))
                = csv_line it ++ following (map csv_line items)).
    { unfold after_terminator.
      destruct (csv_line it ++ following (map csv_line items)); reflexivity. }
    rewrite A.
    rewrite scan_line; [|reflexivity|reflexivity|apply following_head].
    rewrite IH; [|reflexivity|discriminate].
    simpl. rewrite <- app_assoc. reflexivity.
Qed.

Lemma scan_header (rest : string) :
  scan scanner0 (String.concat "," csv_header ++ rest)
  = scan (mkScanner [] ["name"; "quantity"; "unit"; "category"; "notes"; "have"]
                    "checked" false) rest.
Proof. reflexivity. Qed.

(** The decoder reads the rows the encoder wrote: the header, and the
    cells of each item. *)
Lemma parse_rows_toCSV (items : list Item) :
  parse_rows (toCSV items) = csv_header :: map csv_cells items.
Proof.
  unfold parse_rows, toCSV. rewrite concat_following, scan_header.
  rewrite scan_following; [reflexivity | reflexivity | discriminate].
Qed.

(** *** Blank rows *)

Lemma all_chars_append (p : ascii -> bool) (a b : string) :
  all_chars p (a ++ b) = all_chars p a && all_chars p b.
Proof.
  induction a as [|c a IH]; simpl; [reflexivity|].
  now rewrite IH, Bool.andb_assoc.
Qed.

Lemma trimStart_empty (s : string) :
  trimStart s = "" <-> all_chars is_ws s = true.
Proof.
  induction s as [|c s IH]; simpl; [tauto|].
  destruct (is_ws c); simpl; [exact IH | split; discriminate].
Qed.

Lemma trimEnd_empty (s : string) :
  trimEnd s = "" <-> all_chars is_ws s = true.
Proof.
  induction s as [|c s IH]; simpl; [tauto|].
  destruct (trimEnd s) as [|d r].
  - destruct (is_ws c); simpl.
    + split; [intros _; now apply IH | reflexivity].
    + split; discriminate.
  - split; [discriminate|]. intros H.
    apply Bool.andb_true_iff in H. destruct H as [_ H].
    apply IH in H. discriminate.
Qed.

Lemma all_ws_trimStart (s : string) :
  all_chars is_ws (trimStart s) = all_chars is_ws s.
Proof.
  induction s as [|c s IH]; simpl; [reflexivity|].
  destruct (is_ws c) eqn:W; simpl; [exact IH | now rewrite W].
Qed.

(** A string trims to the empty string exactly when it is made of white
    space. *)
Lemma trim_empty (s : string) : trim s = "" <-> all_chars is_ws s = true.
Proof. unfold trim. now rewrite trimEnd_empty, all_ws_trimStart. Qed.

Lemma csv_object_not_blank (it : Item) :
  nonempty (trim (String.concat "" (obj_values (csv_object it)))) = true.
Proof.
  apply nonempty_true. intros H. apply trim_empty in H.
  unfold csv_object, obj_values in H. simpl in H.
  rewrite !all_chars_append in H.
  destruct (flag (have it)), (flag (checked it)); simpl in H;
    rewrite ?Bool.andb_false_r in H; discriminate.
Qed.

Lemma fill_object_cells (it : Item) :
  fill_object csv_header 0 (csv_cells it) [] = csv_object it.
Proof. reflexivity. Qed.

(** Decoding the text encoded from a collection gives the row mappings of
    its items, one for each, in order. *)
Lemma parseCSV_toCSV (items : list Item) :
  parseCSV (toCSV items) = map csv_object items.
Proof.
  unfold parseCSV. rewrite parse_rows_toCSV.
  change (map (fun h => toLowerCase (trim h)) csv_header) with csv_header.
  rewrite map_map.
  induction items as [|it items IH]; [reflexivity|].
  cbn [map filter]. rewrite fill_object_cells, csv_object_not_blank.
  f_equal. exact IH.
Qed.

(** C9.  For items that satisfy the invariant of the working collection,
    decoding the encoded text gives one row mapping for each item, in
    order, and the fields of the row under the names of the header are the
    values of the item, a flag as [TRUE] or [FALSE]. *)
Theorem csv_round_trip (items : list Item) :
  Forall working_invariant items ->
  Forall2 row_matches items (parseCSV (toCSV items)).
Proof.
  intros H. rewrite parseCSV_toCSV.
  induction H as [|it items Hit _ IH]; simpl; constructor; [|exact IH].
  destruct Hit as (_ & Hq & Hu & Hn & Hh & Hc & _).
  unfold row_matches, csv_object. simpl.
  destruct (quantity it) as [q|]; [|congruence].
  destruct (unit it) as [u|]; [|congruence].
  destruct (notes it) as [no|]; [|congruence].
  destruct (have it) as [[|]|]; [| |congruence];
    (destruct (checked it) as [[|]|]; [| |congruence]);
    simpl; repeat split; reflexivity.
Qed.

(** An instance of C9: two items with commas, quotes and line ends in
    their fields. *)
Lemma csv_round_trip_witness :
  Forall2 row_matches
    [ mkItem "k1" "milk, whole" (Some "1") (Some "gal") "Dairy"
             (Some (String dquote ("fresh" ++ String dquote "")))
             (Some true) (Some false) (Some 0%Z);
      mkItem "k2" "tea" (Some "") (Some "") "Other"
             (Some ("two" ++ String LF "lines" ++ String CR (String LF "three")))
             (Some false) (Some true) (Some 1%Z) ]
    (parseCSV (toCSV
       [ mkItem "k1" "milk, whole" (Some "1") (Some "gal") "Dairy"
                (Some (String dquote ("fresh" ++ String dquote "")))
                (Some true) (Some false) (Some 0%Z);
         mkItem "k2" "tea" (Some "") (Some "") "Other"
                (Some ("two" ++ String LF "lines" ++ String CR (String LF "three")))
                (Some false) (Some true) (Some 1%Z) ])).
Proof.
  apply csv_round_trip.
  repeat constructor; simpl; discriminate.
Defined.

(** ** Regular expressions: the matcher and the strings matched *)

Lemma take_app (a b : string) : take (String.length a) (a ++ b) = a.
Proof. induction a as [|c a IH]; simpl; [now destruct b | now rewrite IH]. Qed.

Lemma consumed_app (a b : string) : consumed (a ++ b) b = a.
Proof.
  unfold consumed. rewrite length_append.
  replace (String.length a + String.length b - String.length b)
    with (String.length a) by lia.
  apply take_app.
Qed.

Lemma rstar_sound {R : Type} (p : ascii -> bool) (s : string)
    (k : string -> option R) (r : R) :
  rstar p s k = Some r ->
  exists a b, s = a ++ b /\ all_chars p a = true /\ k b = Some r.
Proof.
  induction s as [|c s IH]; simpl.
  - intros H. exists "", "". auto.
  - destruct (p c) eqn:Pc.
    + destruct (rstar p s k) as [r'|] eqn:E.
      * intros H. injection H as <-.
        destruct (IH eq_refl) as (a & b & -> & Ha & Hk).
        exists (String c a), b. simpl. rewrite Pc, Ha. auto.
      * intros H. exists "", (String c s). auto.
    + intros H. exists "", (String c s). auto.
Qed.

Lemma rstar_complete {R : Type} (p : ascii -> bool) (a b : string)
    (k : string -> option R) (r : R) :
  all_chars p a = true ->
  k b = Some r ->
  exists r', rstar p (a ++ b) k = Some r'.
Proof.
  intros Ha Hk. induction a as [|c a IH]; simpl.
  - destruct b as [|c b]; simpl; [eauto|].
    destruct (p c); [|eauto].
    destruct (rstar p b k); eauto.
  - simpl in Ha. apply Bool.andb_true_iff in Ha. destruct Ha as [Pc Ha].
    rewrite Pc. destruct (IH Ha) as [r' ->]. eauto.
Qed.

Lemma rmatch_sound (n : nat) (r : regex) :
  forall s caps k res,
    rmatch n r s caps k = Some res ->
    exists a b c,
      s = a ++ b /\ Lang n r a b c /\ k b (caps ++ c)%list = Some res.
Proof.
  induction r as [p|p|r1 IH1 r2 IH2|r1 IH1 r2 IH2|r IH| | |];
    intros s caps k res H; simpl in H.
  - destruct s as [|c s]; [discriminate|].
    destruct (p c) eqn:Pc; [|discriminate].
    exists (str1 c), s, []. rewrite app_nil_r.
    split; [reflexivity|]. split; [now constructor | exact H].
  - apply rstar_sound in H. destruct H as (a & b & -> & Ha & Hk).
    exists a, b, []. rewrite app_nil_r.
    split; [reflexivity|]. split; [now constructor | exact Hk].
  - apply IH1 in H. destruct H as (a1 & b1 & c1 & -> & L1 & H).
    apply IH2 in H. destruct H as (a2 & b & c2 & -> & L2 & H).
    exists (a1 ++ a2), b, (c1 ++ c2)%list.
    rewrite append_assoc, app_assoc.
    split; [reflexivity|]. split; [now constructor | exact H].
  - destruct (rmatch n r1 s caps k) as [res1|] eqn:E.
    + injection H as <-. apply IH1 in E.
      destruct E as (a & b & c & -> & L & Hk).
      exists a, b, c. split; [reflexivity|]. split; [now apply L_AltL | exact Hk].
    + apply IH2 in H. destruct H as (a & b & c & -> & L & Hk).
      exists a, b, c. split; [reflexivity|]. split; [now apply L_AltR | exact Hk].
  - apply IH in H. destruct H as (a & b & c & -> & L & Hk).
    rewrite consumed_app in Hk.
    exists a, b, (c ++ [a])%list. rewrite app_assoc.
    split; [reflexivity|]. split; [now constructor | exact Hk].
  - exists "", s, []. rewrite app_nil_r.
    split; [reflexivity|]. split; [constructor | exact H].
  - destruct (Nat.eqb_spec (String.length s) n) as [E|E]; [|discriminate].
    exists "", s, []. rewrite app_nil_r.
    split; [reflexivity|]. split; [now constructor | exact H].
  - destruct s; [|discriminate].
    exists "", "", []. rewrite app_nil_r.
    split; [reflexivity|]. split; [constructor | exact H].
Qed.

Lemma rmatch_complete (n : nat) (r : regex) (a b : string) (c : list string) :
  Lang n r a b c ->
  forall caps k res,
    k b (caps ++ c)%list = Some res ->
    exists res', rmatch n r (a ++ b) caps k = Some res'.
Proof.
  induction 1 as [p ch b Pc|p a b Ha|r1 r2 a1 a2 b c1 c2 L1 IH1 L2 IH2
                  |r1 r2 a b c L IH|r1 r2 a b c L IH|r a b c L IH|b|b Hb|];
    intros caps k res Hk; simpl.
  - rewrite Pc. rewrite app_nil_r in Hk. eauto.
  - rewrite app_nil_r in Hk. eapply rstar_complete; eassumption.
  - rewrite append_assoc. rewrite app_assoc in Hk.
    destruct (IH2 _ _ _ Hk) as [res2 H2].
    apply (IH1 caps (fun s' caps' => rmatch n r2 s' caps' k) res2). exact H2.
  - destruct (IH _ _ _ Hk) as [res' ->]. eauto.
  - destruct (rmatch n r1 (a ++ b) caps k); [eauto|]. eapply IH; eassumption.
  - apply (IH caps (fun s' caps' => k s' (caps' ++ [consumed (a ++ b) s'])%list) res).
    rewrite consumed_app, <- app_assoc. exact Hk.
  - rewrite app_nil_r in Hk. eauto.
  - rewrite Hb, Nat.eqb_refl. rewrite app_nil_r in Hk. eauto.
  - rewrite app_nil_r in Hk. eauto.
Qed.

Lemma rsearch_sound (n : nat) (r : regex) (s : string) (caps : list string) :
  rsearch n r s = Some caps ->
  exists pre suf,
    s = pre ++ suf /\ rmatch n r suf [] (fun _ c => Some c) = Some caps.
Proof.
  induction s as [|d s IH]; cbn [rsearch].
  - destruct (rmatch n r "" [] (fun _ c => Some c)) as [c0|] eqn:M;
      [|discriminate].
    intros H. injection H as <-. exists "", "". auto.
  - destruct (rmatch n r (String d s) [] (fun _ c => Some c)) as [c0|] eqn:M.
    + intros H. injection H as <-. exists "", (String d s). auto.
    + intros H. destruct (IH H) as (pre & suf & -> & Hm).
      exists (String d pre), suf. auto.
Qed.

(** The match of an expression on a whole input, from its first
    character to its last: its groups are those of a way to read the
    input; and an input that can be read has a match. *)
Lemma regex_match_sound (r : regex) (s : string) (m : list string) :
  regex_match r s = Some m ->
  exists pre a b, s = pre ++ a ++ b /\ Lang (String.length s) r a b m.
Proof.
  unfold regex_match. intros H. apply rsearch_sound in H.
  destruct H as (pre & suf & -> & H). apply rmatch_sound in H.
  destruct H as (a & b & c & -> & L & Hk). simpl in Hk. injection Hk as <-.
  now exists pre, a, b.
Qed.

Lemma regex_match_complete (r : regex) (s : string) (m : list string) :
  Lang (String.length s) r s "" m ->
  exists m', regex_match r s = Some m'.
Proof.
  intros L. unfold regex_match. apply rsearch_some.
  exists "", s. split; [reflexivity|].
  destruct (rmatch_complete _ _ _ _ _ L [] (fun _ c => Some c) m eq_refl)
    as [res' H].
  rewrite append_nil_r in H. now exists res'.
Qed.

(** ** The freeform line importer *)

Ltac inv H := inversion H; subst; clear H.

Lemma all_chars_weaken (p q : ascii -> bool) (s : string) :
  (forall c, p c = true -> q c = true) ->
  all_chars p s = true -> all_chars q s = true.
Proof.
  intros Hpq. induction s as [|c s IH]; simpl; [reflexivity|].
  intros H. apply Bool.andb_true_iff in H. destruct H as [Hc Hs].
  now rewrite (Hpq _ Hc), IH.
Qed.

Lemma digit_num_char (c : ascii) : is_digit c = true -> is_num_char c = true.
Proof. intros H. unfold is_num_char. now rewrite H. Qed.

(** A way to read a left part with the expression is a cut of it after
    the pattern. *)
Lemma lang_paste_inv (n : nat) (a b : string) (m : list string) :
  Lang n paste_rx a b m ->
  b = "" /\ String.length a = n /\
  exists q u nm, m = [q; u; nm] /\ paste_pattern a q u nm.
Proof.
  unfold paste_rx, Plus. intros H.
  repeat match goal with
         | H : Lang _ (Seq _ _) _ _ _ |- _ => inv H
         | H : Lang _ (Grp _) _ _ _ |- _ => inv H
         | H : Lang _ (Chr _) _ _ _ |- _ => inv H
         | H : Lang _ (Star _) _ _ _ |- _ => inv H
         | H : Lang _ Bol _ _ _ |- _ => inv H
         | H : Lang _ Eol _ _ _ |- _ => inv H
         end.
  split; [reflexivity|]. split; [rewrite !append_nil_r; reflexivity|].
  match goal with
  | Hd : is_digit ?d = true, Ha : is_alpha ?l = true, Ht : is_dot ?t = true,
    Hds : all_chars is_digit ?ds = true, Hns : all_chars is_num_char ?ns = true,
    Hls : all_chars is_alpha ?ls = true, Hts : all_chars is_dot ?ts = true
    |- _ =>
      exists (String d (ds ++ ns)), (String l ls), (String t ts);
      split; [reflexivity|]
  end.
  match goal with
  | |- paste_pattern ("" ++ ?w ++ _ ++ (str1 ?x ++ ?xs) ++ _ ++ (str1 ?y ++ ?ys) ++ _) _ _ _ =>
      exists w, (String x xs), (String y ys)
  end.
  split; [simpl; now rewrite !append_nil_r, ?append_assoc|].
  split; [assumption|].
  split.
  { eexists _, _. split; [reflexivity|]. split; [assumption|].
    rewrite all_chars_append. apply Bool.andb_true_iff. split; [|assumption].
    eapply all_chars_weaken; [apply digit_num_char | assumption]. }
  repeat split; try discriminate; simpl;
    repeat match goal with
           | H : _ = true |- _ => rewrite H; clear H
           end; reflexivity.
Qed.

Lemma lang_plus (n : nat) (p : ascii -> bool) (c : ascii) (a b : string) :
  p c = true -> all_chars p a = true -> Lang n (Plus p) (String c a) b [].
Proof.
  intros Hc Ha. unfold Plus.
  apply (L_Seq n (Chr p) (Star p) (str1 c) a b [] []); now constructor.
Qed.

Lemma lang_at_end (n : nat) (r : regex) (a : string) (c : list string) :
  Lang n r a "" c -> Lang n (Seq r Eol) a "" c.
Proof.
  intros L.
  pose proof (L_Seq n r Eol a "" "" c [] L (L_Eol n)) as H.
  now rewrite append_nil_r, app_nil_r in H.
Qed.

(** A cut of a left part after the pattern is a way to read it with the
    expression. *)
Lemma lang_paste_intro (left q u nm : string) :
  paste_pattern left q u nm ->
  Lang (String.length left) paste_rx left "" [q; u; nm].
Proof.
  intros (ws & ws1 & ws2 & E & Hws & (d & q' & -> & Hd & Hq') &
          (N1 & W1) & (Nu & Wu) & (N2 & W2) & Nn & Wn).
  destruct ws1 as [|x1 ws1]; [contradiction|].
  destruct u as [|l u]; [contradiction|].
  destruct ws2 as [|x2 ws2]; [contradiction|].
  destruct nm as [|t nm]; [contradiction|].
  simpl in W1, Wu, W2, Wn.
  apply Bool.andb_true_iff in W1, Wu, W2, Wn.
  destruct W1 as [X1 W1], Wu as [Xl Wu], W2 as [X2 W2], Wn as [Xt Wn].
  set (n := String.length left).
  assert (Hn : String.length left = n) by reflexivity. clearbody n.
  subst left. unfold paste_rx.
  apply (L_Seq n Bol _ "" _ "" [] [String d q'; String l u; String t nm]).
  { constructor. now rewrite append_nil_r. }
  apply (L_Seq n (Star is_ws) _ ws _ "" [] [String d q'; String l u; String t nm]).
  { now constructor. }
  apply (L_Seq n (Grp _) _ (String d q') _ "" [String d q'] [String l u; String t nm]).
  { apply (L_Grp n _ (String d q') _ []).
    apply (L_Seq n (Plus is_digit) (Star is_num_char) (str1 d) q' _ [] []).
    - now apply lang_plus.
    - now constructor. }
  apply (L_Seq n (Plus is_ws) _ (String x1 ws1) _ "" [] [String l u; String t nm]).
  { now apply lang_plus. }
  apply (L_Seq n (Grp _) _ (String l u) _ "" [String l u] [String t nm]).
  { apply (L_Grp n _ (String l u) _ []). now apply lang_plus. }
  apply (L_Seq n (Plus is_ws) _ (String x2 ws2) _ "" [] [String t nm]).
  { now apply lang_plus. }
  apply lang_at_end.
  apply (L_Grp n _ (String t nm) _ []). now apply lang_plus.
Qed.

Lemma cut_unique (p : ascii -> bool) (a : string) :
  forall a' b b',
    a ++ b = a' ++ b' ->
    all_chars p a = true -> all_chars p a' = true ->
    head_not p b -> head_not p b' ->
    a = a' /\ b = b'.
Proof.
  induction a as [|c a IH]; intros a' b b' E Ha Ha' Hb Hb'.
  - destruct a' as [|c' a']; [now split|].
    simpl in E. subst b. simpl in Hb, Ha'.
    apply Bool.andb_true_iff in Ha'. destruct Ha' as [Hc _]. congruence.
  - destruct a' as [|c' a'].
    + simpl in E. subst b'. simpl in Hb', Ha.
      apply Bool.andb_true_iff in Ha. destruct Ha as [Hc _]. congruence.
    + simpl in E. injection E as -> E. simpl in Ha, Ha'.
      apply Bool.andb_true_iff in Ha, Ha'.
      destruct Ha as [_ Ha], Ha' as [_ Ha'].
      destruct (IH _ _ _ E Ha Ha' Hb Hb') as [-> ->]. now split.
Qed.

Ltac by_cases_on c :=
  destruct c as [[|] [|] [|] [|] [|] [|] [|] [|]];
  vm_compute; intros; congruence.

Lemma digit_not_ws (c : ascii) : is_digit c = true -> is_ws c = false.
Proof. by_cases_on c. Qed.

Lemma ws_not_num_char (c : ascii) : is_ws c = true -> is_num_char c = false.
Proof. by_cases_on c. Qed.

Lemma alpha_not_ws (c : ascii) : is_alpha c = true -> is_ws c = false.
Proof. by_cases_on c. Qed.

Lemma ws_not_alpha (c : ascii) : is_ws c = true -> is_alpha c = false.
Proof. by_cases_on c. Qed.

Lemma trimStart_ws_prefix (a x : string) :
  all_chars is_ws a = true -> trimStart (a ++ x) = trimStart x.
Proof.
  induction a as [|c a IH]; simpl; [reflexivity|].
  intros H. apply Bool.andb_true_iff in H. destruct H as [Hc Ha].
  rewrite Hc. now apply IH.
Qed.

Lemma trim_ws_prefix (a x : string) :
  all_chars is_ws a = true -> trim (a ++ x) = trim x.
Proof. intros H. unfold trim. now rewrite trimStart_ws_prefix. Qed.

(** Two cuts of a left part after the pattern have the same numeral and
    the same unit, and texts that differ by white space in front only. *)
Lemma paste_pattern_unique (left q u nm q' u' nm' : string) :
  paste_pattern left q u nm -> paste_pattern left q' u' nm' ->
  q = q' /\ u = u' /\ trim nm = trim nm'.
Proof.
  intros (ws & ws1 & ws2 & E & Hws & (d & q0 & -> & Hd & Hq0) &
          (N1 & W1) & (Nu & Wu) & (N2 & W2) & Nn & Wn)
         (vs & vs1 & vs2 & E' & Hvs & (e & r0 & -> & He & Hr0) &
          (M1 & V1) & (Mu & Vu) & (M2 & V2) & Mn & Vn).
  rewrite E in E'. clear E.
  destruct ws1 as [|x1 ws1]; [contradiction|].
  destruct vs1 as [|y1 vs1]; [contradiction|].
  destruct u as [|l u]; [contradiction|].
  destruct u' as [|l' u']; [contradiction|].
  destruct ws2 as [|x2 ws2]; [contradiction|].
  destruct vs2 as [|y2 vs2]; [contradiction|].
  pose proof W1 as W1'. pose proof V1 as V1'.
  pose proof Wu as Wu'. pose proof Vu as Vu'.
  pose proof W2 as W2'. pose proof V2 as V2'.
  simpl in W1', V1', Wu', Vu', W2', V2'.
  apply Bool.andb_true_iff in W1', V1', Wu', Vu', W2', V2'.
  apply (cut_unique is_ws) in E'; [| assumption | assumption
        | simpl; now apply digit_not_ws | simpl; now apply digit_not_ws].
  destruct E' as [_ E'].
  apply (cut_unique is_num_char) in E';
    [ | simpl; now rewrite (digit_num_char _ Hd), Hq0
      | simpl; now rewrite (digit_num_char _ He), Hr0
      | simpl; apply ws_not_num_char; tauto
      | simpl; apply ws_not_num_char; tauto ].
  destruct E' as [Eq E'].
  apply (cut_unique is_ws) in E';
    [ | assumption | assumption
      | simpl; apply alpha_not_ws; tauto | simpl; apply alpha_not_ws; tauto ].
  destruct E' as [_ E'].
  apply (cut_unique is_alpha) in E';
    [ | assumption | assumption
      | simpl; apply ws_not_alpha; tauto | simpl; apply ws_not_alpha; tauto ].
  destruct E' as [Eu E'].
  split; [exact Eq|]. split; [exact Eu|].
  rewrite <- (trim_ws_prefix (String x2 ws2) nm W2).
  rewrite <- (trim_ws_prefix (String y2 vs2) nm' V2).
  now rewrite E'.
Qed.

Lemma length_zero (s : string) : String.length s = 0 -> s = "".
Proof. destruct s; simpl; [reflexivity | discriminate]. Qed.

(** The match of the expression on a left part gives the three groups of
    a cut of it after the pattern. *)
Lemma paste_match_sound (left : string) (m : list string) :
  regex_match paste_rx left = Some m ->
  exists q u nm, m = [q; u; nm] /\ paste_pattern left q u nm.
Proof.
  intros H. apply regex_match_sound in H.
  destruct H as (pre & a & b & E & L). apply lang_paste_inv in L.
  destruct L as (-> & Hlen & q & u & nm & -> & P).
  assert (Hpre : pre = "").
  { apply length_zero. rewrite E, !length_append in Hlen. simpl in Hlen. lia. }
  subst pre. simpl in E. rewrite append_nil_r in E. subst a.
  now exists q, u, nm.
Qed.

(** A left part that can be cut after the pattern is matched, with the
    numeral and the unit of the cut. *)
Lemma paste_match_complete (left q u nm : string) :
  paste_pattern left q u nm ->
  exists nm', regex_match paste_rx left = Some [q; u; nm'] /\
              trim nm' = trim nm.
Proof.
  intros P. destruct (regex_match_complete _ _ _ (lang_paste_intro _ _ _ _ P))
    as [m' H].
  destruct (paste_match_sound _ _ H) as (q1 & u1 & nm1 & -> & P1).
  destruct (paste_pattern_unique _ _ _ _ _ _ _ P1 P) as (-> & -> & T).
  now exists nm1.
Qed.

Lemma paste_match_none (left : string) :
  (forall q u nm, ~ paste_pattern left q u nm) ->
  regex_match paste_rx left = None.
Proof.
  intros H. destruct (regex_match paste_rx left) as [m|] eqn:E; [|reflexivity].
  destruct (paste_match_sound _ _ E) as (q & u & nm & _ & P).
  exfalso. exact (H _ _ _ P).
Qed.

Lemma split_on_no_bar (l : string) :
  no_bar l = true -> split_on "|" l = [l].
Proof.
  induction l as [|c l IH]; simpl; [reflexivity|].
  intros H. apply Bool.andb_true_iff in H. destruct H as [Hc Hl].
  apply Bool.negb_true_iff in Hc. rewrite Hc, (IH Hl). reflexivity.
Qed.

Lemma split_on_bar (l rest : string) :
  no_bar l = true ->
  split_on "|" (l ++ "|" ++ rest) = l :: split_on "|" rest.
Proof.
  induction l as [|c l IH]; simpl; [reflexivity|].
  intros H. apply Bool.andb_true_iff in H. destruct H as [Hc Hl].
  apply Bool.negb_true_iff in Hc. rewrite Hc. simpl in IH. rewrite (IH Hl).
  reflexivity.
Qed.

Lemma line_pieces_split (line l : string) (right : option string) :
  line_pieces line l right ->
  nth 0 (split_on "|" line) "" = l /\ nth_error (split_on "|" line) 1 = right.
Proof.
  intros [Hl [[-> ->] | (r & rest & Hr & -> & Hrest & ->)]].
  - rewrite (split_on_no_bar l Hl). split; reflexivity.
  - rewrite (split_on_bar l _ Hl). destruct Hrest as [-> | [t ->]].
    + rewrite append_nil_r, (split_on_no_bar r Hr). split; reflexivity.
    + rewrite (split_on_bar r _ Hr). split; reflexivity.
Qed.

(** Every line has pieces. *)
Lemma line_pieces_total (line : string) :
  exists l right, line_pieces line l right.
Proof.
  induction line as [|c s (l & right & Hl & Hs)].
  - exists "", None. split; [reflexivity | left; now split].
  - destruct (Ascii.eqb_spec c "|") as [->|Hc].
    + exists "". destruct Hs as [[-> ->] | (r & rest & Hr & -> & Hrest & ->)].
      * exists (Some l). split; [reflexivity|]. right.
        exists l, "". rewrite append_nil_r. repeat split; auto.
      * exists (Some l). split; [reflexivity|]. right.
        exists l, ("|" ++ r ++ rest). repeat split; eauto.
    + exists (String c l), right. split.
      * unfold no_bar in *. simpl. apply Ascii.eqb_neq in Hc.
        now rewrite Hc, Hl.
      * destruct Hs as [[-> ->] | (r & rest & Hr & -> & Hrest & ->)].
        -- left. now split.
        -- right. exists r, rest. repeat split; auto.
Qed.

(** C4 (as amended).  A line is split on every bar; its left part is the
    piece before the first bar and its right part the piece between the
    first bar and the second, when there is a bar.  The category is the
    right part trimmed when there is one and it is not blank, else
    [Other].  When the left part can be cut after the pattern (a
    numeral, a unit of letters, the text that follows, with white space
    between them), the quantity is the numeral, the unit is the unit, and
    the name is the text up to white space around it; when it cannot, the
    name is the left part trimmed and the quantity and the unit are
    empty. *)
Theorem handlePaste_line_fields (uid : nat -> string) (now : nat -> Z)
    (n : nat) (line l : string) (right : option string) :
  line_pieces line l right ->
  category (paste_line uid now n line)
  = match right with
    | Some r => if nonempty (trim r) then trim r else "Other"
    | None => "Other"
    end /\
  (forall q u nm,
      paste_pattern l q u nm ->
      quantity (paste_line uid now n line) = Some q /\
      unit (paste_line uid now n line) = Some u /\
      trim (name (paste_line uid now n line)) = trim nm) /\
  ((forall q u nm, ~ paste_pattern l q u nm) ->
   name (paste_line uid now n line) = trim l /\
   quantity (paste_line uid now n line) = Some "" /\
   unit (paste_line uid now n line) = Some "").
Proof.
  intros HP. destruct (line_pieces_split _ _ _ HP) as [El Er].
  unfold paste_line. rewrite El, Er.
  split; [|split].
  - destruct (regex_match paste_rx l); destruct right; reflexivity.
  - intros q u nm P.
    destruct (paste_match_complete _ _ _ _ P) as (nm' & -> & T).
    simpl. auto.
  - intros HN. rewrite (paste_match_none _ HN). simpl. auto.
Qed.

Lemma paste_pattern_matched (left q u nm : string) :
  paste_pattern left q u nm -> regex_match paste_rx left <> None.
Proof.
  intros P. destruct (paste_match_complete _ _ _ _ P) as (nm' & -> & _).
  discriminate.
Qed.

(** Instances of C4: the two lines of the specification. *)
Lemma handlePaste_line_fields_witness :
  (category (paste_line sample_uid sample_now 0 "2 lb chicken breast | Meat")
   = "Meat" /\
   quantity (paste_line sample_uid sample_now 0 "2 lb chicken breast | Meat")
   = Some "2" /\
   unit (paste_line sample_uid sample_now 0 "2 lb chicken breast | Meat")
   = Some "lb" /\
   trim (name (paste_line sample_uid sample_now 0 "2 lb chicken breast | Meat"))
   = "chicken breast") /\
  (category (paste_line sample_uid sample_now 1 "carrots") = "Other" /\
   name (paste_line sample_uid sample_now 1 "carrots") = "carrots" /\
   quantity (paste_line sample_uid sample_now 1 "carrots") = Some "" /\
   unit (paste_line sample_uid sample_now 1 "carrots") = Some "").
Proof.
  split.
  - assert (HP : line_pieces "2 lb chicken breast | Meat"
                             "2 lb chicken breast " (Some " Meat")).
    { split; [reflexivity|]. right. exists " Meat", "".
      repeat split; auto. }
    destruct (handlePaste_line_fields sample_uid sample_now 0 _ _ _ HP)
      as (Hc & Hm & _).
    assert (P : paste_pattern "2 lb chicken breast " "2" "lb" "chicken breast ").
    { exists "", " ", " ". repeat split; try discriminate.
      exists "2"%char, "". repeat split. }
    destruct (Hm _ _ _ P) as (Hq & Hu & Hn).
    repeat split; assumption.
  - assert (HP : line_pieces "carrots" "carrots" None).
    { split; [reflexivity|]. left. split; reflexivity. }
    destruct (handlePaste_line_fields sample_uid sample_now 1 _ _ _ HP)
      as (Hc & _ & Hn).
    assert (N : forall q u nm, ~ paste_pattern "carrots" q u nm).
    { intros q u nm P. apply paste_pattern_matched in P. apply P.
      vm_compute. reflexivity. }
    destruct (Hn N) as (H1 & H2 & H3).
    repeat split; assumption.
Defined.

(** C4 (as stated) fails at two lines.  With two bars in the line, the
    category is the piece between them, not what follows the first bar;
    and the name of a record matched by the pattern keeps the white space
    that ends the left part. *)
Lemma handlePaste_line_as_specified_fails :
  category (paste_line sample_uid sample_now 0 "a|b|c")
  <> category_as_specified "a|b|c" /\
  name (paste_line sample_uid sample_now 0 "2 lb chicken breast | Meat")
  <> "chicken breast".
Proof. split; vm_compute; discriminate. Qed.

Example handlePaste_two_lines :
  paste_records sample_uid sample_now 0
    ("2 lb chicken breast|Meat" ++ String CR (String LF "carrots"))
  = [ mkItem "id0" "chicken breast" (Some "2") (Some "lb") "Meat" None
             (Some false) (Some false) (Some 1700000000000%Z);
      mkItem "id1" "carrots" (Some "") (Some "") "Other" None
             (Some false) (Some false) (Some 1700000000001%Z) ].
Proof. vm_compute. reflexivity. Qed.

(** ** Consolidator: one record for each key, in the order of the keys *)

Lemma existsb_eqb_In (k : string) (l : list string) :
  existsb (String.eqb k) l = true <-> In k l.
Proof.
  rewrite existsb_exists. split.
  - intros (x & Hin & E). apply String.eqb_eq in E. now subst.
  - intros H. exists k. split; [exact H | apply String.eqb_refl].
Qed.

Lemma first_seen_ext (ks : list string) :
  forall s1 s2,
    (forall k, In k s1 <-> In k s2) ->
    first_seen s1 ks = first_seen s2 ks.
Proof.
  induction ks as [|k ks IH]; intros s1 s2 H; simpl; [reflexivity|].
  destruct (existsb (String.eqb k) s1) eqn:E1.
  - apply existsb_eqb_In in E1. apply H in E1. apply existsb_eqb_In in E1.
    rewrite E1. now apply IH.
  - assert (E2 : existsb (String.eqb k) s2 = false).
    { destruct (existsb (String.eqb k) s2) eqn:E2; [|reflexivity].
      apply existsb_eqb_In in E2. apply H in E2. apply existsb_eqb_In in E2.
      congruence. }
    rewrite E2. f_equal. apply IH. intros k'. simpl. now rewrite H.
Qed.

Lemma map_set_In (k : string) (v : Item) (m : ItemMap) (k' : string)
    (v' : Item) :
  In (k', v') (map_set k v m) -> (k', v') = (k, v) \/ In (k', v') m.
Proof.
  induction m as [|[k0 v0] m IH]; simpl.
  - intros [H|[]]. now left.
  - destruct (String.eqb k0 k); simpl.
    + intros [H|H]; [now left | right; now right].
    + intros [H|H]; [right; now left|].
      destruct (IH H) as [E|E]; [now left | right; now right].
Qed.

Section ConsolidatorOrder.

Context {RT : NumberRuntime}.

Lemma consolidate_fold_keys (items : list Item) :
  forall m,
    map fst (fold_left consolidate_step items m)
    = (map fst m ++ first_seen (map fst m) (map key items))%list.
Proof.
  induction items as [|it items IH]; intros m; simpl.
  - now rewrite app_nil_r.
  - rewrite IH. destruct (map_get (key it) m) as [cur|] eqn:G.
    + rewrite (consolidate_step_merge m cur it G).
      rewrite (map_set_keys _ _ cur _ G).
      assert (E : existsb (String.eqb (key it)) (map fst m) = true).
      { apply existsb_eqb_In.
        change (key it) with (fst (key it, cur)). apply in_map.
        now apply map_get_Some_In. }
      now rewrite E.
    + rewrite (consolidate_step_new m it G).
      assert (E : existsb (String.eqb (key it)) (map fst m) = false).
      { destruct (existsb (String.eqb (key it)) (map fst m)) eqn:E;
          [|reflexivity].
        apply existsb_eqb_In in E. apply map_get_None in G. contradiction. }
      rewrite E, map_app. simpl. rewrite <- app_assoc. simpl.
      do 2 f_equal. apply first_seen_ext.
      intros k. rewrite in_app_iff. simpl. tauto.
Qed.

Lemma consolidate_step_first (done : list Item) (m : ItemMap) (it : Item) :
  (forall k v, In (k, v) m -> stands_for_first done k v) ->
  (forall y, In y done -> In (key y) (map fst m)) ->
  (forall k v, In (k, v) (consolidate_step m it) ->
               stands_for_first (done ++ [it]) k v) /\
  (forall y, In y (done ++ [it]) ->
             In (key y) (map fst (consolidate_step m it))).
Proof.
  intros HP HQ.
  assert (Old : forall k v, stands_for_first done k v ->
                            stands_for_first (done ++ [it]) k v).
  { intros k v (pre & x & post & -> & Hpre & Hk & Hrest).
    exists pre, x, (post ++ [it])%list.
    rewrite <- app_assoc. simpl. auto. }
  destruct (map_get (key it) m) as [cur|] eqn:G.
  - rewrite (consolidate_step_merge m cur it G). split.
    + intros k v Hin. apply map_set_In in Hin. destruct Hin as [E|Hin].
      * injection E as -> ->. apply map_get_Some_In in G.
        destruct (Old _ _ (HP _ _ G))
          as (pre & x & post & E & Hpre & Hk & Hn & Hc & Hi & Ht).
        exists pre, x, post.
        rewrite merge_name, merge_category, merge_id, merge_createdAt.
        auto 10.
      * apply Old. now apply HP.
    + intros y Hy. rewrite (map_set_keys _ _ cur _ G).
      apply in_app_or in Hy. destruct Hy as [Hy|[<-|[]]].
      * now apply HQ.
      * change (key it) with (fst (key it, cur)). apply in_map.
        now apply map_get_Some_In.
  - rewrite (consolidate_step_new m it G). split.
    + intros k v Hin. apply in_app_or in Hin. destruct Hin as [Hin|[E|[]]].
      * apply Old. now apply HP.
      * injection E as <- <-. exists done, it, []. repeat split.
        intros y Hy E. apply map_get_None in G. apply G.
        rewrite <- E. now apply HQ.
    + intros y Hy. rewrite map_app, in_app_iff. simpl.
      apply in_app_or in Hy. destruct Hy as [Hy|[<-|[]]].
      * left. now apply HQ.
      * right. now left.
Qed.

Lemma consolidate_fold_first (items : list Item) :
  forall done m,
    (forall k v, In (k, v) m -> stands_for_first done k v) ->
    (forall y, In y done -> In (key y) (map fst m)) ->
    (forall k v, In (k, v) (fold_left consolidate_step items m) ->
                 stands_for_first (done ++ items) k v) /\
    (forall y, In y (done ++ items) ->
               In (key y) (map fst (fold_left consolidate_step items m))).
Proof.
  induction items as [|it items IH]; intros done m HP HQ; simpl.
  - rewrite app_nil_r. now split.
  - destruct (consolidate_step_first done m it HP HQ) as [HP' HQ'].
    specialize (IH (done ++ [it])%list _ HP' HQ').
    rewrite <- app_assoc in IH. exact IH.
Qed.

(** X25.  With the key of the loop, one string, for the key of an item: the
    keys of the records that come out are distinct; they are the keys of
    the input, each once, in the order in which they are first seen; and
    the record of a key has the name, the category, the identifier and the
    time of creation of the first item of that key. *)
Lemma consolidate_first_seen (items : list Item) :
  NoDup (map key (consolidateDuplicates items)) /\
  map key (consolidateDuplicates items) = first_seen [] (map key items) /\
  (forall it, In it items ->
              In (key it) (map key (consolidateDuplicates items))) /\
  (forall out, In out (consolidateDuplicates items) ->
               stands_for_first items (key out) out).
Proof.
  unfold consolidateDuplicates, map_values.
  destruct (consolidate_map_ok items) as [Hnd Hk].
  destruct (map_ok_values _ Hk) as [E1 _].
  destruct (consolidate_fold_first items [] [])
    as [HP HQ]; [intros k v [] | intros y [] |].
  rewrite E1. split; [exact Hnd|]. split.
  - unfold consolidate_map. now rewrite consolidate_fold_keys.
  - split.
    + intros it Hin. now apply HQ.
    + intros out Hin. apply in_map_iff in Hin.
      destruct Hin as ([k v] & <- & Hin). simpl.
      rewrite Forall_forall in Hk. pose proof (Hk _ Hin) as E.
      simpl in E. rewrite E. now apply HP.
Qed.

End ConsolidatorOrder.

(** * Further properties *)

(** ** Export, then import *)

Lemma or_default_self (s : string) : or_default (Some s) "" = s.
Proof. destruct s; reflexivity. Qed.

Lemma or_else_none_l (o : option string) : or_else None o = o.
Proof. reflexivity. Qed.

Lemma or_else_none_r (s : string) :
  or_default (or_else (Some s) None) "" = s.
Proof. destruct s; reflexivity. Qed.

Lemma or_else_none_r2 (s : string) :
  or_default (or_else (or_else (Some s) None) None) "" = s.
Proof. destruct s; reflexivity. Qed.

Lemma or_else_none_r3 (s : string) :
  or_default (or_else (or_else (or_else (Some s) None) None) None) "" = s.
Proof. destruct s; reflexivity. Qed.

Lemma import_row_csv_object (uid : nat -> string) (now : nat -> Z)
    (categories : list string) (n : nat) (it : Item) :
  import_row uid now categories n (csv_object it)
  = reimported uid now categories n it.
Proof.
  unfold import_row, reimported, csv_object.
  cbn [obj_get String.eqb Ascii.eqb Bool.eqb].
  rewrite !or_else_none_l, !or_default_self.
  rewrite !or_else_none_r3, !or_else_none_r2, !or_else_none_r.
  assert (T : regex_test truthy_rx "TRUE" = true) by (vm_compute; reflexivity).
  assert (F : regex_test truthy_rx "FALSE" = false) by (vm_compute; reflexivity).
  destruct (flag (have it)), (flag (checked it));
    cbn [or_default nonempty]; rewrite ?T, ?F; reflexivity.
Qed.

Lemma map_from_map {A B C : Type} (f : nat -> B -> C) (g : A -> B)
    (l : list A) :
  forall n, map_from f n (map g l) = map_from (fun i x => f i (g x)) n l.
Proof.
  induction l as [|x l IH]; intros n; simpl; [reflexivity | now rewrite IH].
Qed.

Lemma map_from_ext {A B : Type} (f g : nat -> A -> B) (l : list A) :
  (forall i x, f i x = g i x) ->
  forall n, map_from f n l = map_from g n l.
Proof.
  intros H. induction l as [|x l IH]; intros n; simpl;
    [reflexivity | now rewrite H, IH].
Qed.

Lemma import_records_toCSV (uid : nat -> string) (now : nat -> Z)
    (categories : list string) (n : nat) (items : list Item) :
  import_records uid now categories n (toCSV items)
  = filter (fun x => nonempty (name x))
           (map_from (reimported uid now categories) n items).
Proof.
  unfold import_records. rewrite parseCSV_toCSV, map_from_map.
  f_equal. apply map_from_ext. intros i x. apply import_row_csv_object.
Qed.

(** X1.  The records the importer makes of the text exported from a
    collection are, item by item and in order, the items with their texts
    trimmed, their flags made booleans, their category normalized and a
    new identifier and time, without the items whose name is blank. *)
Theorem import_of_export (uid : nat -> string) (now : nat -> Z)
    (categories : list string) (n : nat) (items : list Item) :
  import_records uid now categories n (toCSV items)
  = filter (fun x => nonempty (name x))
           (map_from (reimported uid now categories) n items).
Proof. apply import_records_toCSV. Qed.

Lemma reimported_settled (uid : nat -> string) (now : nat -> Z)
    (categories : list string) (n : nat) (it : Item) :
  settled categories it ->
  reimported uid now categories n it = restamp (uid n) (now n) it /\
  nonempty (name it) = true.
Proof.
  intros (Hn & Tn & (q & Hq & Tq) & (u & Hu & Tu) & (t & Ht & Tt) &
          (h & Hh) & (c & Hc) & Hcat).
  split; [|now apply nonempty_true].
  unfold reimported, restamp.
  rewrite Tn, Hq, Hu, Ht, Hh, Hc, Hcat. simpl. rewrite Tq, Tu, Tt.
  destruct h, c; reflexivity.
Qed.

(** X2.  For a collection of settled items, importing the text exported
    from it gives the same items again, in order, each with a new
    identifier and time of creation; the import puts them in front of the
    collection it is given. *)
Theorem import_of_export_settled (uid : nat -> string) (now : nat -> Z)
    (categories : list string) (n : nat) (items prev : list Item) :
  Forall (settled categories) items ->
  import_records uid now categories n (toCSV items)
  = map_from (fun i it => restamp (uid i) (now i) it) n items /\
  importCSV uid now categories prev n (toCSV items)
  = (map_from (fun i it => restamp (uid i) (now i) it) n items ++ prev)%list.
Proof.
  intros H.
  assert (E : import_records uid now categories n (toCSV items)
              = map_from (fun i it => restamp (uid i) (now i) it) n items).
  { rewrite import_records_toCSV. revert n.
    induction H as [|it items Hit _ IH]; intros n; [reflexivity|].
    cbn [filter map_from].
    destruct (reimported_settled uid now categories n it Hit) as [E Hn].
    rewrite E. cbn [name restamp]. rewrite Hn. f_equal. apply IH. }
  split; [exact E|].
  unfold importCSV. rewrite E.
  destruct (map_from (fun i it => restamp (uid i) (now i) it) n items);
    reflexivity.
Qed.

(** An instance of X2: two items, the second with a category of its own. *)
Lemma import_of_export_settled_witness :
  import_records sample_uid sample_now ["Produce"; "Dairy"; "Other"] 7
    (toCSV [ mkItem "a1" "milk, 2%" (Some "1") (Some "gal") "Dairy"
                    (Some "the cold one") (Some true) (Some false) (Some 5%Z);
             mkItem "a2" "figs" (Some "") (Some "") "Treats" (Some "")
                    (Some false) (Some true) (Some 6%Z) ])
  = [ mkItem "id7" "milk, 2%" (Some "1") (Some "gal") "Dairy"
             (Some "the cold one") (Some true) (Some false)
             (Some 1700000000007%Z);
      mkItem "id8" "figs" (Some "") (Some "") "Treats" (Some "")
             (Some false) (Some true) (Some 1700000000008%Z) ].
Proof.
  refine (proj1 (import_of_export_settled sample_uid sample_now
                   ["Produce"; "Dairy"; "Other"] 7 _ [] _)).
  repeat constructor; try discriminate; try reflexivity;
    eexists; split; reflexivity.
Defined.

(** ** The records of the CSV importer *)

(** X3.  Every record the CSV importer makes satisfies the invariant of
    the working collection: its name is not empty once trimmed and none of
    its optional fields is undefined.  The rows without a name give no
    record, and the records go in front of the collection. *)
Theorem importCSV_invariant (uid : nat -> string) (now : nat -> Z)
    (categories : list string) (prev : list Item) (n : nat) (text : string) :
  Forall working_invariant (import_records uid now categories n text) /\
  importCSV uid now categories prev n text
  = (import_records uid now categories n text ++ prev)%list.
Proof.
  split.
  - apply Forall_forall. intros it Hin. unfold import_records in Hin.
    apply filter_In in Hin. destruct Hin as [Hin Hne].
    apply map_from_In in Hin. destruct Hin as (i & r & _ & E).
    apply nonempty_true in Hne. subst it. unfold working_invariant.
    cbn [name quantity unit notes have checked createdAt import_row] in *.
    rewrite trim_idempotent.
    repeat split; try discriminate. exact Hne.
  - unfold importCSV.
    destruct (import_records uid now categories n text); reflexivity.
Qed.

(** ** Manual addition *)

(** X4.  [addItem] adds a record exactly when the name given is not empty
    once trimmed, and puts it first; the record satisfies the invariant of
    the working collection and its category is not empty.  Without such a
    name the collection is left as it is. *)
Theorem addItem_invariant (uid : nat -> string) (now : nat -> Z)
    (prev : list Item) (n : nat) (partial : Patch) :
  (trim (or_default (p_name partial) "") = "" ->
   addItem uid now prev n partial = prev) /\
  (trim (or_default (p_name partial) "") <> "" ->
   addItem uid now prev n partial = new_item uid now n partial :: prev /\
   working_invariant (new_item uid now n partial) /\
   category (new_item uid now n partial) <> "").
Proof.
  unfold addItem. cbn [name new_item]. split.
  - intros ->. reflexivity.
  - intros H. pose proof H as H'. apply nonempty_true in H'. rewrite H'.
    split; [reflexivity|]. split.
    + unfold working_invariant. cbn [name quantity unit notes have checked
                                     createdAt new_item].
      rewrite trim_idempotent. repeat split; try discriminate. exact H.
    + cbn [category new_item]. destruct (p_category partial) as [c|];
        [destruct c|]; simpl; discriminate.
Qed.

(** ** The records of the freeform importer *)

Lemma all_chars_trimStart (p : ascii -> bool) (s : string) :
  all_chars p s = true -> all_chars p (trimStart s) = true.
Proof.
  induction s as [|c s IH]; simpl; [reflexivity|].
  intros H. destruct (is_ws c); [|exact H].
  apply Bool.andb_true_iff in H. now apply IH.
Qed.

Lemma all_chars_trimEnd (p : ascii -> bool) (s : string) :
  all_chars p s = true -> all_chars p (trimEnd s) = true.
Proof.
  induction s as [|c s IH]; simpl; [reflexivity|].
  intros H. apply Bool.andb_true_iff in H. destruct H as [Hc Hs].
  specialize (IH Hs). destruct (trimEnd s) as [|d r].
  - destruct (is_ws c); simpl; [reflexivity | now rewrite Hc].
  - simpl in IH |- *. now rewrite Hc, IH.
Qed.

Lemma all_chars_trim (p : ascii -> bool) (s : string) :
  all_chars p s = true -> all_chars p (trim s) = true.
Proof. intros H. now apply all_chars_trimEnd, all_chars_trimStart. Qed.

Lemma all_chars_split_lines (p : ascii -> bool) (s : string) :
  all_chars p s = true ->
  Forall (fun l => all_chars p l = true) (split_lines s).
Proof.
  remember (String.length s) as k eqn:Hk. revert s Hk.
  induction k as [k IH] using lt_wf_ind. intros s Hk H.
  destruct s as [|c s]; [repeat constructor|].
  simpl in H. apply Bool.andb_true_iff in H. destruct H as [Hc Hs].
  cbn [split_lines]. destruct (Ascii.eqb c LF).
  - constructor; [reflexivity|]. apply (IH (String.length s)); simpl in Hk; [lia | reflexivity | exact Hs].
  - destruct s as [|d s']; [repeat constructor; simpl; now rewrite Hc|].
    destruct (Ascii.eqb c CR && Ascii.eqb d LF).
    + constructor; [reflexivity|].
      simpl in Hs. apply Bool.andb_true_iff in Hs. destruct Hs as [_ Hs'].
      apply (IH (String.length s')); simpl in Hk; [lia | reflexivity | exact Hs'].
    + assert (R : Forall (fun l => all_chars p l = true)
                         (split_lines (String d s'))).
      { apply (IH (String.length (String d s'))); simpl in Hk |- *;
          [lia | reflexivity | exact Hs]. }
      destruct (split_lines (String d s')) as [|l ls].
      * repeat constructor. simpl. now rewrite Hc.
      * inversion R; subst. constructor; [simpl; now rewrite Hc | assumption].
Qed.

Lemma trimEnd_of_trim (s : string) : trim s = s -> trimEnd s = s.
Proof.
  intros H. rewrite <- H at 1. unfold trim.
  rewrite trimEnd_idempotent. exact H.
Qed.

(** A string that ends where its trimmed form ends has no blank suffix. *)
Lemma trimEnd_suffix (a b : string) :
  trimEnd (a ++ b) = a ++ b -> b <> "" -> all_chars is_ws b = false.
Proof.
  induction a as [|c a IH]; simpl; intros H Hb.
  - destruct (all_chars is_ws b) eqn:W; [|reflexivity].
    apply trimEnd_empty in W. rewrite W in H. now subst b.
  - destruct (trimEnd (a ++ b)) as [|d r] eqn:E.
    + destruct (is_ws c); [discriminate|].
      unfold str1 in H. injection H as H. symmetry in H.
      destruct a; simpl in H; [now subst b | discriminate].
    + injection H as H. apply IH; assumption.
Qed.

Lemma paste_pattern_suffix (left q u nm : string) :
  paste_pattern left q u nm -> exists a, left = a ++ nm /\ nm <> "".
Proof.
  intros (ws & ws1 & ws2 & -> & _ & _ & _ & _ & _ & Hn & _).
  exists (ws ++ q ++ ws1 ++ u ++ ws2). split; [|exact Hn].
  now rewrite !append_assoc.
Qed.

Lemma paste_line_named (uid : nat -> string) (now : nat -> Z) (n : nat)
    (line : string) :
  no_bar line = true -> line <> "" -> trim line = line ->
  trim (name (paste_line uid now n line)) <> "".
Proof.
  intros Hb Hne Ht. unfold paste_line.
  rewrite (split_on_no_bar line Hb). cbn [nth].
  destruct (regex_match paste_rx line) as [m|] eqn:M.
  - destruct (paste_match_sound _ _ M) as (q & u & nm & -> & P).
    cbn [name nth]. destruct (paste_pattern_suffix _ _ _ _ P) as (a & E & Hn).
    intros W. apply trim_empty in W.
    apply trimEnd_of_trim in Ht. rewrite E in Ht.
    rewrite (trimEnd_suffix a nm Ht Hn) in W. discriminate.
  - cbn [name]. rewrite trim_idempotent, Ht. exact Hne.
Qed.

Lemma map_from_Forall {A B : Type} (P : A -> Prop) (Q : B -> Prop)
    (f : nat -> A -> B) (l : list A) :
  (forall i x, P x -> Q (f i x)) ->
  Forall P l -> forall n, Forall Q (map_from f n l).
Proof.
  intros H HP. induction HP as [|x l Hx _ IH]; intros n; simpl;
    constructor; auto.
Qed.


Lemma paste_lines_trimmed (text : string) :
  Forall (fun l => l <> "" /\ trim l = l) (paste_lines text).
Proof.
  apply Forall_forall. intros l Hin. unfold paste_lines in Hin.
  apply filter_In in Hin. destruct Hin as [Hin Hne].
  apply in_map_iff in Hin. destruct Hin as (x & <- & _).
  split; [now apply nonempty_true | apply trim_idempotent].
Qed.

(** X5.  A text without a bar gives no nameless record: the name of every
    record [handlePaste] makes of it is not empty once trimmed. *)
Theorem handlePaste_named_without_bar (uid : nat -> string) (now : nat -> Z)
    (n : nat) (text : string) :
  no_bar text = true ->
  Forall (fun it => trim (name it) <> "") (paste_records uid now n text).
Proof.
  intros Hb. unfold paste_records.
  apply (map_from_Forall
           (fun l => no_bar l = true /\ l <> "" /\ trim l = l)).
  - intros i l (H1 & H2 & H3). now apply paste_line_named.
  - pose proof (paste_lines_trimmed text) as HT.
    rewrite Forall_forall in HT |- *. intros l Hin.
    split; [|now apply HT].
    unfold paste_lines in Hin. apply filter_In in Hin. destruct Hin as [Hin _].
    apply in_map_iff in Hin. destruct Hin as (x & <- & Hx).
    apply all_chars_trim.
    pose proof (all_chars_split_lines _ text Hb) as HS.
    rewrite Forall_forall in HS. now apply HS.
Qed.

(** An instance of X5: three lines, the last one blank. *)
Lemma handlePaste_named_without_bar_witness :
  Forall (fun it => trim (name it) <> "")
    (paste_records sample_uid sample_now 0
       ("  3 lb  potatoes " ++ String CR (String LF ("9 9" ++ String LF "   ")))).
Proof. apply handlePaste_named_without_bar. reflexivity. Defined.

Lemma or_default_nonempty (o : option string) (d : string) :
  d <> "" -> or_default o d <> "".
Proof.
  intros Hd. destruct o as [s|]; simpl; [|exact Hd].
  destruct s; simpl; [exact Hd | discriminate].
Qed.

Lemma paste_records_fields (uid : nat -> string) (now : nat -> Z) (n : nat)
    (text : string) :
  Forall (fun it => category it <> "" /\ quantity it <> None /\
                    unit it <> None /\ notes it = None /\
                    have it = Some false /\ checked it = Some false)
         (paste_records uid now n text).
Proof.
  unfold paste_records.
  apply (map_from_Forall (fun _ => True)); [|apply Forall_forall; auto].
  intros i l _. unfold paste_line.
  destruct (regex_match paste_rx (nth 0 (split_on "|" l) ""));
    cbn [category quantity unit notes have checked];
    (split; [apply or_default_nonempty; discriminate|]);
    repeat split; discriminate.
Qed.

Lemma handlePaste_prepends (uid : nat -> string) (now : nat -> Z)
    (prev : list Item) (n : nat) (text : string) :
  handlePaste uid now prev n text
  = (paste_records uid now n text ++ prev)%list.
Proof. unfold handlePaste. destruct (paste_records uid now n text); reflexivity. Qed.


(** ** CSV decode: line ends and columns *)

Lemma end_of_line_quotes (st : Scanner) :
  inQuotes (end_of_line st) = inQuotes st.
Proof.
  unfold end_of_line.
  destruct ((1 <? List.length (row (pushField st)))%nat
            || (List.length (rows (pushField st)) =? 0)%nat); reflexivity.
Qed.

Lemma scan_step_plain (st : Scanner) (c : ascii) (next : option ascii) :
  inQuotes st = false ->
  Ascii.eqb c dquote = false -> Ascii.eqb c CR = false ->
  Ascii.eqb c LF = false ->
  scan_step st c next
  = (if Ascii.eqb c "," then pushField st else add_char c st, false).
Proof.
  intros Hq Hd Hr Hl. unfold scan_step, is_terminator.
  rewrite Hq, Hd, Hl, Hr. destruct (Ascii.eqb c ","); reflexivity.
Qed.

Lemma scan_crlf (t : string) :
  forall st,
    plain_text t = true ->
    inQuotes st = false ->
    scan st (replaceAll LF (String CR (str1 LF)) t) = scan st t.
Proof.
  induction t as [|c t IH]; intros st Hp Hq; [reflexivity|].
  unfold plain_text in Hp. simpl in Hp.
  apply Bool.andb_true_iff in Hp. destruct Hp as [Hc Hp].
  apply Bool.andb_true_iff in Hc. destruct Hc as [Hd Hr].
  apply Bool.negb_true_iff in Hd, Hr.
  cbn [replaceAll]. destruct (Ascii.eqb c LF) eqn:Hl.
  - apply Ascii.eqb_eq in Hl. subst c.
    change (String CR (str1 LF) ++ replaceAll LF (String CR (str1 LF)) t)
      with (String CR (String LF (replaceAll LF (String CR (str1 LF)) t))).
    rewrite (scan_terminator st CR _ Hq eq_refl).
    rewrite (scan_terminator st LF _ Hq eq_refl).
    cbn [after_terminator]. rewrite !Ascii.eqb_refl. cbn [andb].
    assert (A : after_terminator LF t = t) by (destruct t; reflexivity).
    rewrite A. apply IH; [exact Hp | now rewrite end_of_line_quotes].
  - rewrite !scan_cons, !(scan_step_plain st c _ Hq Hd Hr Hl). cbn [fst snd].
    apply IH; [exact Hp|]. destruct (Ascii.eqb c ","); exact Hq.
Qed.

(** X7.  In a text without double quotes and carriage returns, writing
    every line end as a carriage return and a line feed changes nothing to
    what is decoded. *)
Theorem parseCSV_crlf (text : string) :
  plain_text text = true ->
  parseCSV (replaceAll LF (String CR (str1 LF)) text) = parseCSV text.
Proof.
  intros H. unfold parseCSV, parse_rows.
  now rewrite (scan_crlf text scanner0 H eq_refl).
Qed.

(** An instance of X7: a header and two rows. *)
Lemma parseCSV_crlf_witness :
  parseCSV (replaceAll LF (String CR (str1 LF))
              ("name,qty" ++ String LF ("milk,1" ++ String LF "tea,2")))
  = parseCSV ("name,qty" ++ String LF ("milk,1" ++ String LF "tea,2")).
Proof.
  apply (parseCSV_crlf ("name,qty" ++ String LF ("milk,1" ++ String LF "tea,2"))).
  reflexivity.
Defined.

Lemma obj_get_put_same (k v : string) (o : Obj) :
  obj_get k (obj_put k v o) = Some v.
Proof.
  induction o as [|[k' v'] o IH]; simpl.
  - now rewrite String.eqb_refl.
  - destruct (String.eqb k' k) eqn:E; simpl.
    + now rewrite String.eqb_refl.
    + now rewrite E.
Qed.

Lemma obj_get_put_other (k k' v : string) (o : Obj) :
  k' <> k -> obj_get k' (obj_put k v o) = obj_get k' o.
Proof.
  intros Hk. induction o as [|[k0 v0] o IH]; simpl.
  - destruct (String.eqb_spec k k'); [congruence | reflexivity].
  - destruct (String.eqb_spec k0 k) as [->|E]; simpl.
    + destruct (String.eqb_spec k k'); [congruence|].
      destruct (String.eqb_spec k k'); [congruence | reflexivity].
    + destruct (String.eqb k0 k'); [reflexivity | exact IH].
Qed.

Lemma obj_get_set_other (k k' v : string) (o : Obj) :
  k' <> k -> obj_get k' (obj_set k v o) = obj_get k' o.
Proof.
  intros Hk. unfold obj_set. destruct (String.eqb k "__proto__");
    [reflexivity | now apply obj_get_put_other].
Qed.

Lemma fill_object_other (header : list string) (k : string) :
  forall idx r obj,
    ~ In k header ->
    obj_get k (fill_object header idx r obj) = obj_get k obj.
Proof.
  induction header as [|h hs IH]; intros idx r obj Hk; simpl; [reflexivity|].
  rewrite IH; [|intros H; apply Hk; now right].
  apply obj_get_set_other. intros ->. apply Hk. now left.
Qed.

(** The property of a column after the filling of a row: the cell of the
    last column of that name, or the empty string past the end of the
    row. *)
Lemma fill_object_column (header : list string) :
  forall idx r obj i,
    i < List.length header ->
    nth i header "" <> "__proto__" ->
    (forall j, i < j -> j < List.length header ->
               nth j header "" <> nth i header "") ->
    obj_get (nth i header "") (fill_object header idx r obj)
    = Some (nth (idx + i) r "").
Proof.
  induction header as [|h hs IH]; intros idx r obj i Hi Hp Hlast;
    [simpl in Hi; lia|].
  destruct i as [|i].
  - cbn [nth fill_object] in *. rewrite Nat.add_0_r.
    rewrite fill_object_other.
    + unfold obj_set. apply String.eqb_neq in Hp. rewrite Hp.
      apply obj_get_put_same.
    + intros Hin. apply (In_nth _ _ "") in Hin. destruct Hin as (j & Hj & E).
      apply (Hlast (S j)); [lia | simpl; lia | exact E].
  - cbn [nth fill_object] in *. simpl in Hi.
    rewrite (IH (S idx) r _ i); [f_equal; f_equal; lia | lia | exact Hp |].
    intros j Hij Hj. apply (Hlast (S j)); [lia | simpl; lia].
Qed.

Lemma fill_object_keys (header : list string) :
  forall idx r obj k v,
    obj_get k (fill_object header idx r obj) = Some v ->
    In k header \/ obj_get k obj <> None.
Proof.
  induction header as [|h hs IH]; intros idx r obj k v H; simpl in H.
  - right. congruence.
  - destruct (IH _ _ _ _ _ H) as [Hin|Hget]; [left; now right|].
    destruct (String.string_dec k h) as [->|Hk]; [left; now left|].
    right. now rewrite obj_get_set_other in Hget.
Qed.

(** X8.  Every row mapping that [parseCSV] gives is made of a row after
    the first: under a column name it has the cell of the last column of
    that name, and the empty string when the row is too short; it has no
    property besides the column names. *)
Theorem parseCSV_columns (text : string) (obj : Obj) :
  In obj (parseCSV text) ->
  exists r,
    In r (tl (parse_rows text)) /\
    (forall i,
        i < List.length (header_of text) ->
        nth i (header_of text) "" <> "__proto__" ->
        (forall j, i < j -> j < List.length (header_of text) ->
                   nth j (header_of text) "" <> nth i (header_of text) "") ->
        obj_get (nth i (header_of text) "") obj = Some (nth i r "")) /\
    (forall k v, obj_get k obj = Some v -> In k (header_of text)).
Proof.
  unfold parseCSV, header_of. destruct (parse_rows text) as [|hd body];
    [intros []|].
  intros Hin. apply filter_In in Hin. destruct Hin as [Hin _].
  apply in_map_iff in Hin. destruct Hin as (r & <- & Hr).
  exists r. split; [exact Hr|]. split.
  - intros i Hi Hp Hlast.
    apply (fill_object_column _ 0 r [] i Hi Hp Hlast).
  - intros k v H. apply fill_object_keys in H.
    destruct H as [H|H]; [exact H | now elim H].
Qed.

(** An instance of X8: a row shorter than the header. *)
Lemma parseCSV_columns_witness :
  exists r,
    In r (tl (parse_rows ("Item , QTY ,note" ++ String LF "milk,2"))) /\
    (forall i,
        i < List.length (header_of ("Item , QTY ,note" ++ String LF "milk,2")) ->
        nth i (header_of ("Item , QTY ,note" ++ String LF "milk,2")) ""
        <> "__proto__" ->
        (forall j,
            i < j ->
            j < List.length (header_of ("Item , QTY ,note" ++ String LF "milk,2")) ->
            nth j (header_of ("Item , QTY ,note" ++ String LF "milk,2")) ""
            <> nth i (header_of ("Item , QTY ,note" ++ String LF "milk,2")) "") ->
        obj_get (nth i (header_of ("Item , QTY ,note" ++ String LF "milk,2")) "")
                [("item", "milk"); ("qty", "2"); ("note", "")]
        = Some (nth i r "")) /\
    (forall k v,
        obj_get k [("item", "milk"); ("qty", "2"); ("note", "")] = Some v ->
        In k (header_of ("Item , QTY ,note" ++ String LF "milk,2"))).
Proof.
  apply (parseCSV_columns ("Item , QTY ,note" ++ String LF "milk,2")
           [("item", "milk"); ("qty", "2"); ("note", "")]).
  vm_compute. left. reflexivity.
Defined.

(** ** Consolidator: whole collections *)

Lemma strict_eqb_false (a b : option string) :
  a <> b -> strict_eqb a b = false.
Proof.
  intros H. destruct a as [x|], b as [y|]; simpl; try reflexivity.
  - apply String.eqb_neq. congruence.
  - congruence.
Qed.

Lemma map_get_set (k k' : string) (v : Item) (m : ItemMap) :
  map_get k' (map_set k v m)
  = if String.eqb k k' then Some v else map_get k' m.
Proof.
  induction m as [|[k0 v0] m IH]; simpl.
  - reflexivity.
  - destruct (String.eqb_spec k0 k) as [->|E]; simpl.
    + destruct (String.eqb k k'); reflexivity.
    + destruct (String.eqb_spec k0 k') as [->|E'].
      * destruct (String.eqb_spec k k'); [congruence | reflexivity].
      * exact IH.
Qed.

Lemma map_get_In (k : string) (v : Item) (m : ItemMap) :
  NoDup (map fst m) -> In (k, v) m -> map_get k m = Some v.
Proof.
  induction m as [|[k0 v0] m IH]; simpl; intros Hnd Hin; [contradiction|].
  inversion Hnd as [|? ? Hk Hnd']; subst.
  destruct Hin as [E|Hin].
  - injection E as -> ->. now rewrite String.eqb_refl.
  - destruct (String.eqb_spec k0 k) as [->|E]; [|now apply IH].
    exfalso. apply Hk. change k with (fst (k, v)). now apply in_map.
Qed.

Section ConsolidatorCollections.

Context {RT : NumberRuntime}.

(** X9.  A collection in which no two items have the same key is left as
    it is by the consolidation. *)
Theorem consolidate_without_duplicates (items : list Item) :
  NoDup (map key items) -> consolidateDuplicates items = items.
Proof.
  intros H. unfold consolidateDuplicates, map_values, consolidate_map.
  rewrite consolidate_fold_fresh; [|exact H].
  simpl. rewrite map_map. simpl. apply map_id.
Qed.

Lemma consolidate_map_of_values (m : ItemMap) :
  map_ok m -> fold_left consolidate_step (map snd m) [] = m.
Proof.
  intros [Hnd Hk]. destruct (map_ok_values _ Hk) as [E1 E2].
  rewrite consolidate_fold_fresh; [now rewrite E2 | now rewrite E1].
Qed.

(** X10.  Consolidating a consolidated collection with more items after it
    gives what consolidating all the items at once gives. *)
Theorem consolidate_append (xs ys : list Item) :
  consolidateDuplicates (consolidateDuplicates xs ++ ys)
  = consolidateDuplicates (xs ++ ys).
Proof.
  unfold consolidateDuplicates, map_values, consolidate_map.
  rewrite !fold_left_app.
  change (fold_left consolidate_step xs []) with (consolidate_map xs).
  now rewrite (consolidate_map_of_values _ (consolidate_map_ok xs)).
Qed.

(** X11.  When an item is merged into the record kept for its key and one
    of the two has no quantity, or their units differ, the quantity and
    the unit of the record are as they were, and its notes become the
    pieces that are not empty among its notes, the amount of the incoming
    item and the notes of the incoming item, with a semicolon and a space
    between them.  The amount is the quantity and the unit with a space
    between them, or the quantity alone when the unit is empty; it is
    empty when the quantity is, whatever the unit. *)
Theorem consolidate_notes_merge (m : ItemMap) (cur it : Item) :
  map_get (key it) m = Some cur ->
  truthy (quantity cur) = false \/ truthy (quantity it) = false \/
  unit cur <> unit it ->
  map_get (key it) (consolidate_step m it) = Some (merge cur it) /\
  quantity (merge cur it) = quantity cur /\
  unit (merge cur it) = unit cur /\
  (forall q u, quantity it = Some q -> q <> "" -> unit it = Some u -> u <> "" ->
               notes (merge cur it)
               = Some (join_truthy [notes cur; Some (q ++ " " ++ u); notes it])) /\
  (forall q, quantity it = Some q -> truthy (unit it) = false ->
             notes (merge cur it)
             = Some (join_truthy [notes cur; Some q; notes it])) /\
  (truthy (quantity it) = false ->
   notes (merge cur it) = Some (join_truthy [notes cur; notes it])).
Proof.
  intros H Hc.
  rewrite (consolidate_step_merge m cur it H), map_get_set_same.
  split; [reflexivity|].
  assert (E : truthy (quantity cur) && truthy (quantity it)
              && strict_eqb (unit cur) (unit it) = false).
  { destruct Hc as [-> | [-> | Hu]].
    - reflexivity.
    - now rewrite Bool.andb_false_r.
    - rewrite (strict_eqb_false _ _ Hu). now rewrite Bool.andb_false_r. }
  unfold merge. rewrite E. cbn [quantity unit notes set_notes set_flags].
  split; [reflexivity|]. split; [reflexivity|]. split; [|split].
  - intros q u -> Hq -> Hu. apply nonempty_true in Hq, Hu.
    cbn [truthy nullish]. rewrite Hq, Hu. reflexivity.
  - intros q -> Hu. rewrite Hu, Bool.andb_false_r.
    unfold join_truthy. cbn [flat_map or_default truthy nullish].
    destruct q; reflexivity.
  - intros Hq. rewrite Hq. cbn [andb].
    unfold join_truthy. cbn [flat_map].
    destruct (quantity it) as [q|]; [destruct q; [|discriminate]|];
      reflexivity.
Qed.

Lemma consolidate_step_get (m : ItemMap) (it : Item) (k : string) :
  map_get k (consolidate_step m it)
  = if String.eqb (key it) k
    then Some (match map_get (key it) m with
               | Some cur => merge cur it
               | None => it
               end)
    else map_get k m.
Proof.
  unfold consolidate_step. destruct (map_get (key it) m); apply map_get_set.
Qed.

Lemma with_key_app (k : string) (done : list Item) (it : Item) :
  with_key k (done ++ [it])
  = (with_key k done ++ if String.eqb (key it) k then [it] else [])%list.
Proof. unfold with_key. rewrite filter_app. simpl. now destruct (String.eqb (key it) k). Qed.

Lemma with_key_nil (k : string) (done : list Item) :
  (forall y, In y done -> key y <> k) -> with_key k done = [].
Proof.
  intros H. unfold with_key. induction done as [|y done IH]; simpl; [reflexivity|].
  destruct (String.eqb_spec (key y) k) as [E|E].
  - exfalso. apply (H y); [now left | exact E].
  - apply IH. intros z Hz. apply H. now right.
Qed.

Lemma Forall_snoc {A : Type} (P : A -> Prop) (l : list A) (x : A) :
  Forall P (l ++ [x]) <-> Forall P l /\ P x.
Proof.
  rewrite Forall_app. split.
  - intros [H1 H2]. inversion H2; subst. now split.
  - intros [H1 H2]. split; [exact H1 | now constructor].
Qed.

Lemma consolidate_step_flags (done : list Item) (m : ItemMap) (it : Item) :
  (forall y, In y done -> map_get (key y) m <> None) ->
  (forall k v, map_get k m = Some v -> flags_of_all done k v) ->
  (forall y, In y (done ++ [it]) ->
             map_get (key y) (consolidate_step m it) <> None) /\
  (forall k v, map_get k (consolidate_step m it) = Some v ->
               flags_of_all (done ++ [it]) k v).
Proof.
  intros HQ HP. split.
  - intros y Hy. rewrite consolidate_step_get.
    destruct (String.eqb (key it) (key y)) eqn:E; [discriminate|].
    apply in_app_or in Hy. destruct Hy as [Hy|[<-|[]]]; [now apply HQ|].
    now rewrite String.eqb_refl in E.
  - intros k v. rewrite consolidate_step_get.
    unfold flags_of_all. rewrite with_key_app.
    destruct (String.eqb_spec (key it) k) as [<-|E].
    + intros Hv. injection Hv as <-.
      destruct (map_get (key it) m) as [cur|] eqn:G.
      * destruct (HP _ _ G) as [Hh Hc].
        rewrite merge_have, merge_checked, !js_and_true, !Forall_snoc.
        rewrite Hh, Hc. tauto.
      * rewrite (with_key_nil (key it) done).
        -- simpl. split; (split; [intros H; now repeat constructor
                                  | intros H; now inversion H]).
        -- intros y Hy E. apply (HQ y Hy). now rewrite E.
    + intros Hv. rewrite app_nil_r. now apply HP.
Qed.

Lemma consolidate_fold_flags (items : list Item) :
  forall done m,
    (forall y, In y done -> map_get (key y) m <> None) ->
    (forall k v, map_get k m = Some v -> flags_of_all done k v) ->
    forall k v, map_get k (fold_left consolidate_step items m) = Some v ->
                flags_of_all (done ++ items) k v.
Proof.
  induction items as [|it items IH]; intros done m HQ HP k v; simpl.
  - rewrite app_nil_r. apply HP.
  - destruct (consolidate_step_flags done m it HQ HP) as [HQ' HP'].
    intros H. specialize (IH (done ++ [it])%list _ HQ' HP' k v H).
    now rewrite <- app_assoc in IH.
Qed.

(** X12.  After the consolidation a record is marked as had only if every
    item of its key in the collection was, and marked as checked only if
    every item of its key was. *)
Theorem consolidate_flags_of_all (items : list Item) (out : Item) :
  In out (consolidateDuplicates items) ->
  (have out = Some true <->
   Forall (fun y => have y = Some true) (with_key (key out) items)) /\
  (checked out = Some true <->
   Forall (fun y => checked y = Some true) (with_key (key out) items)).
Proof.
  unfold consolidateDuplicates, map_values. intros Hin.
  destruct (consolidate_map_ok items) as [Hnd Hk].
  apply in_map_iff in Hin. destruct Hin as ([k v] & <- & Hin). simpl.
  rewrite Forall_forall in Hk. pose proof (Hk _ Hin) as E. simpl in E.
  rewrite E.
  apply (consolidate_fold_flags items [] []).
  - intros y [].
  - intros k0 v0 H. discriminate.
  - now apply map_get_In.
Qed.

End ConsolidatorCollections.

(** An instance of X9: the same name in two categories. *)
Lemma consolidate_without_duplicates_witness :
  consolidateDuplicates (RT := ieee754)
    [ mkItem "1" "milk" (Some "1") (Some "gal") "Dairy" (Some "")
             (Some true) (Some false) (Some 0%Z);
      mkItem "2" "milk" (Some "2") (Some "l") "Drinks" (Some "")
             (Some false) (Some false) (Some 1%Z) ]
  = [ mkItem "1" "milk" (Some "1") (Some "gal") "Dairy" (Some "")
             (Some true) (Some false) (Some 0%Z);
      mkItem "2" "milk" (Some "2") (Some "l") "Drinks" (Some "")
             (Some false) (Some false) (Some 1%Z) ].
Proof.
  apply (consolidate_without_duplicates (RT := ieee754)).
  repeat constructor; simpl; intuition discriminate.
Defined.

(** An instance of X11: two records of rice with units that differ. *)
Lemma consolidate_notes_merge_witness :
  let a := mkItem "1" "rice" (Some "2") (Some "kg") "Pantry" (Some "brown")
                  (Some false) (Some false) (Some 0%Z) in
  let b := mkItem "2" "Rice" (Some "1") (Some "bag") "pantry" (Some "any")
                  (Some false) (Some false) (Some 1%Z) in
  quantity (merge (RT := ieee754) a b) = Some "2" /\
  unit (merge (RT := ieee754) a b) = Some "kg" /\
  notes (merge (RT := ieee754) a b) = Some "brown; 1 bag; any".
Proof.
  intros a b.
  assert (U : unit a <> unit b) by discriminate.
  destruct (consolidate_notes_merge (RT := ieee754) [(key a, a)] a b eq_refl
              (or_intror (or_intror U))) as (_ & Hq & Hu & Hn & _).
  split; [exact Hq|]. split; [exact Hu|].
  assert (N1 : "1" <> "") by discriminate.
  assert (N2 : "bag" <> "") by discriminate.
  exact (Hn "1" "bag" eq_refl N1 eq_refl N2).
Defined.

(** An instance of X12: three records of milk, all had, one not checked. *)
Lemma consolidate_flags_of_all_witness :
  let a := mkItem "1" "milk" (Some "1") (Some "gal") "Dairy" (Some "")
                  (Some true) (Some true) (Some 0%Z) in
  let b := mkItem "2" "Milk" (Some "x") (Some "gal") "dairy" (Some "")
                  (Some true) (Some false) (Some 1%Z) in
  let c := mkItem "3" "MILK" (Some "") (Some "") "DAIRY" (Some "")
                  (Some true) (Some true) (Some 2%Z) in
  let out := mkItem "1" "milk" (Some "1") (Some "gal") "Dairy" (Some "x")
                    (Some true) (Some false) (Some 0%Z) in
  consolidateDuplicates (RT := ieee754) [a; b; c] = [out] /\
  have out = Some true /\ checked out <> Some true.
Proof.
  intros a b c out.
  assert (E : consolidateDuplicates (RT := ieee754) [a; b; c] = [out])
    by (vm_compute; reflexivity).
  split; [exact E|].
  assert (Hin : In out (consolidateDuplicates (RT := ieee754) [a; b; c]))
    by (rewrite E; now left).
  destruct (consolidate_flags_of_all (RT := ieee754) [a; b; c] out Hin)
    as [Hh Hc].
  split.
  - apply Hh. repeat constructor.
  - intros H. apply Hc in H. vm_compute in H.
    inversion H as [|? ? _ H']. inversion H' as [|? ? F _]. discriminate.
Defined.

(** ** The item collection: manual changes *)

Lemma apply_patch_then (p1 p2 : Patch) (it : Item) :
  apply_patch p2 (apply_patch p1 it) = apply_patch (patch_then p1 p2) it.
Proof.
  unfold apply_patch, patch_then, over. cbn.
  destruct (p_id p2), (p_name p2), (p_quantity p2), (p_unit p2),
    (p_category p2), (p_notes p2), (p_have p2), (p_checked p2),
    (p_createdAt p2); reflexivity.
Qed.

(** X13.  Two patches of the items of an identifier, of which the first
    leaves the identifier as it is, do what the one patch made of both
    does, the properties of the second over those of the first. *)
Theorem updateItem_compose (i : string) (p1 p2 : Patch) (items : list Item) :
  p_id p1 = None ->
  updateItem i p2 (updateItem i p1 items)
  = updateItem i (patch_then p1 p2) items.
Proof.
  intros H. unfold updateItem. rewrite map_map. apply map_ext.
  intros it. destruct (String.eqb (id it) i) eqn:E.
  - assert (E' : String.eqb (id (apply_patch p1 it)) i = true).
    { unfold apply_patch. cbn [id]. now rewrite H. }
    rewrite E'. apply apply_patch_then.
  - now rewrite E.
Qed.

(** An instance of X13: an item checked and then unchecked. *)
Lemma updateItem_compose_witness :
  updateItem "b" (patch_checked false)
    (updateItem "b" (patch_checked true)
       [ mkItem "a" "tea" (Some "") (Some "") "Other" (Some "")
                (Some false) (Some false) (Some 0%Z);
         mkItem "b" "figs" (Some "") (Some "") "Other" (Some "")
                (Some false) (Some false) (Some 1%Z) ])
  = updateItem "b" (patch_then (patch_checked true) (patch_checked false))
       [ mkItem "a" "tea" (Some "") (Some "") "Other" (Some "")
                (Some false) (Some false) (Some 0%Z);
         mkItem "b" "figs" (Some "") (Some "") "Other" (Some "")
                (Some false) (Some false) (Some 1%Z) ].
Proof. apply updateItem_compose. reflexivity. Defined.

Lemma absent_id_untouched (i : string) (p : Patch) (items : list Item) :
  Forall (fun it => id it <> i) items ->
  updateItem i p items = items /\ removeItem i items = items.
Proof.
  intros H. unfold updateItem, removeItem.
  induction H as [|it items Hit _ [IH1 IH2]]; [split; reflexivity|].
  apply String.eqb_neq in Hit. simpl. rewrite Hit, IH1. simpl.
  rewrite IH2. split; reflexivity.
Qed.

(** X14.  A patch for an identifier that no item has leaves the collection
    as it is; so does the removal of such an identifier. *)
Theorem update_remove_absent (i : string) (p : Patch) (items : list Item) :
  Forall (fun it => id it <> i) items ->
  updateItem i p items = items /\ removeItem i items = items.
Proof. apply absent_id_untouched. Qed.

(** An instance of X14. *)
Lemma update_remove_absent_witness :
  updateItem "zz" (patch_checked true)
    [ mkItem "a" "tea" (Some "") (Some "") "Other" (Some "")
             (Some false) (Some false) (Some 0%Z) ]
  = [ mkItem "a" "tea" (Some "") (Some "") "Other" (Some "")
             (Some false) (Some false) (Some 0%Z) ] /\
  removeItem "zz"
    [ mkItem "a" "tea" (Some "") (Some "") "Other" (Some "")
             (Some false) (Some false) (Some 0%Z) ]
  = [ mkItem "a" "tea" (Some "") (Some "") "Other" (Some "")
             (Some false) (Some false) (Some 0%Z) ].
Proof. apply update_remove_absent. repeat constructor. discriminate. Defined.

(** X15.  Checking the items of an identifier and then clearing the
    checked items gives what removing the items of that identifier and
    then clearing the checked items gives. *)
Theorem clearChecked_after_check (i : string) (items : list Item) :
  clearChecked (updateItem i (patch_checked true) items)
  = clearChecked (removeItem i items).
Proof.
  unfold clearChecked, updateItem, removeItem.
  induction items as [|it items IH]; [reflexivity|].
  cbn [map filter]. destruct (String.eqb (id it) i); cbn [negb].
  - cbn [apply_patch patch_checked checked over p_checked flag negb].
    exact IH.
  - cbn [filter]. now rewrite IH.
Qed.

(** X16.  An item added by hand and then removed by its identifier leaves
    the collection as it was, when no item of the collection had that
    identifier. *)
Theorem removeItem_after_addItem (uid : nat -> string) (now : nat -> Z)
    (prev : list Item) (n : nat) (partial : Patch) :
  Forall (fun it => id it <> uid n) prev ->
  removeItem (uid n) (addItem uid now prev n partial) = prev.
Proof.
  intros H. destruct (absent_id_untouched (uid n) partial prev H) as [_ E].
  unfold addItem. destruct (negb (nonempty (name (new_item uid now n partial))));
    [exact E|].
  unfold removeItem in *. cbn [filter id new_item].
  rewrite String.eqb_refl. exact E.
Qed.

(** An instance of X16. *)
Lemma removeItem_after_addItem_witness :
  removeItem (sample_uid 3)
    (addItem sample_uid sample_now
       [ mkItem "id1" "tea" (Some "") (Some "") "Other" (Some "")
                (Some false) (Some false) (Some 0%Z) ]
       3 (mkPatch None (Some " figs ") (Some (Some "2")) None (Some "Produce")
                  None None None None))
  = [ mkItem "id1" "tea" (Some "") (Some "") "Other" (Some "")
             (Some false) (Some false) (Some 0%Z) ].
Proof. apply removeItem_after_addItem. repeat constructor. discriminate. Defined.

Lemma clearChecked_app (a b : list Item) :
  clearChecked (a ++ b) = (clearChecked a ++ clearChecked b)%list.
Proof. apply filter_app. Qed.

(** X17.  Clearing the checked items after a paste keeps every record of
    the paste, in front of what is left of the collection. *)
Theorem clearChecked_after_paste (uid : nat -> string) (now : nat -> Z)
    (prev : list Item) (n : nat) (text : string) :
  clearChecked (handlePaste uid now prev n text)
  = (paste_records uid now n text ++ clearChecked prev)%list.
Proof.
  rewrite handlePaste_prepends, clearChecked_app. f_equal.
  pose proof (paste_records_fields uid now n text) as HF.
  unfold clearChecked. induction HF as [|it l Hit _ IH]; [reflexivity|].
  destruct Hit as (_ & _ & _ & _ & _ & Hc).
  simpl. rewrite Hc. simpl. now rewrite IH.
Qed.

(** ** The filter of the list shown *)

Lemma prefix_app (q : string) :
  forall s, String.prefix q s = true <-> exists post, s = q ++ post.
Proof.
  induction q as [|a q IH]; intros s.
  - destruct s; simpl; split; eauto.
  - destruct s as [|b s]; simpl.
    + split; [discriminate | intros [post H]; discriminate].
    + destruct (ascii_dec a b) as [->|Hab].
      * rewrite IH. split.
        -- intros [post ->]. now exists post.
        -- intros [post H]. injection H as ->. now exists post.
      * split; [discriminate|]. intros [post H]. injection H as H _.
        congruence.
Qed.

Lemma includes_spec (q s : string) :
  includes q s = true <-> exists pre post, s = pre ++ q ++ post.
Proof.
  induction s as [|c s IH]; cbn [includes].
  - rewrite Bool.orb_false_r, prefix_app. split.
    + intros [post H]. now exists "", post.
    + intros (pre & post & H). destruct pre; [|discriminate].
      now exists post.
  - rewrite Bool.orb_true_iff, prefix_app, IH. split.
    + intros [[post H] | (pre & post & H)].
      * now exists "", post.
      * exists (String c pre), post. simpl. now rewrite H.
    + intros (pre & post & H). destruct pre as [|d pre].
      * left. now exists post.
      * right. simpl in H. injection H as _ H. now exists pre, post.
Qed.

Lemma toLowerCase_app (a b : string) :
  toLowerCase (a ++ b) = toLowerCase a ++ toLowerCase b.
Proof. induction a as [|c a IH]; simpl; [reflexivity | now rewrite IH]. Qed.

Lemma toLowerCase_split (s : string) :
  forall a b,
    toLowerCase s = a ++ b ->
    exists s1 s2, s = s1 ++ s2 /\ toLowerCase s1 = a /\ toLowerCase s2 = b.
Proof.
  induction s as [|c s IH]; intros a b H.
  - destruct a; [|discriminate]. simpl in H. subst b. now exists "", "".
  - destruct a as [|x a].
    + simpl in H. subst b. now exists "", (String c s).
    + simpl in H. injection H as Hx H.
      destruct (IH _ _ H) as (s1 & s2 & -> & H1 & H2).
      exists (String c s1), s2. simpl. now rewrite Hx, H1.
Qed.

Lemma includes_lower (q s : string) :
  includes (toLowerCase q) (toLowerCase s) = true <-> holds_ci (Some s) q.
Proof.
  rewrite includes_spec. unfold holds_ci. split.
  - intros (a & b & H).
    apply toLowerCase_split in H. destruct H as (pre & rest & -> & _ & H).
    apply toLowerCase_split in H. destruct H as (mid & post & -> & Hm & _).
    now exists (pre ++ mid ++ post), pre, mid, post.
  - intros (s' & pre & mid & post & E & -> & Hm). injection E as ->.
    exists (toLowerCase pre), (toLowerCase post).
    now rewrite !toLowerCase_app, Hm.
Qed.

Lemma field_includes_lower (q : string) (field : option string) :
  field_includes field (toLowerCase q) = true <-> holds_ci field q.
Proof.
  destruct field as [s|]; simpl.
  - apply includes_lower.
  - split; [discriminate|]. intros (s & pre & mid & post & E & _). discriminate.
Qed.

Lemma toLowerCase_empty (s : string) : toLowerCase s = "" <-> s = "".
Proof. destruct s; simpl; split; congruence. Qed.

(** X18.  An item of the collection is shown exactly when no switch hides
    it (the one for the items already had, the one for the checked items)
    and either the query is blank or its name, its category, its notes or
    its unit holds the trimmed query somewhere, up to case; the quantity
    is not searched. *)
Theorem filtered_spec (items : list Item) (query : string)
    (showOnlyNeeded showOnlyUnchecked : bool) (it : Item) :
  In it (filtered items query showOnlyNeeded showOnlyUnchecked) <->
  In it items /\
  (showOnlyNeeded = true -> flag (have it) = false) /\
  (showOnlyUnchecked = true -> flag (checked it) = false) /\
  (trim query = "" \/
   holds_ci (Some (name it)) (trim query) \/
   holds_ci (Some (category it)) (trim query) \/
   holds_ci (notes it) (trim query) \/
   holds_ci (unit it) (trim query)).
Proof.
  unfold filtered. rewrite filter_In. unfold shown.
  apply and_iff_compat_l.
  destruct (showOnlyNeeded && flag (have it)) eqn:A.
  { split; [discriminate|]. intros (H & _).
    apply Bool.andb_true_iff in A. destruct A as [A1 A2].
    rewrite (H A1) in A2. discriminate. }
  destruct (showOnlyUnchecked && flag (checked it)) eqn:B.
  { split; [discriminate|]. intros (_ & H & _).
    apply Bool.andb_true_iff in B. destruct B as [B1 B2].
    rewrite (H B1) in B2. discriminate. }
  assert (N : showOnlyNeeded = true -> flag (have it) = false).
  { intros E. now rewrite E in A. }
  assert (U : showOnlyUnchecked = true -> flag (checked it) = false).
  { intros E. now rewrite E in B. }
  destruct (nonempty (toLowerCase (trim query))) eqn:Q; cbn [negb].
  - rewrite !Bool.orb_true_iff, !includes_lower, !field_includes_lower.
    apply nonempty_true in Q. split.
    + intros H. split; [exact N|]. split; [exact U|]. right. tauto.
    + intros (_ & _ & [H|H]); [|tauto].
      exfalso. apply Q. now apply toLowerCase_empty.
  - apply nonempty_false in Q. apply (proj1 (toLowerCase_empty _)) in Q.
    split; [|reflexivity].
    intros _. split; [exact N|]. split; [exact U|]. left. exact Q.
Qed.

(** ** The editor of the category list *)

Lemma existsb_eqb_false (c : string) (l : list string) :
  existsb (String.eqb c) l = false <-> ~ In c l.
Proof.
  split.
  - intros H Hin. apply existsb_eqb_In in Hin. congruence.
  - intros H. destruct (existsb (String.eqb c) l) eqn:E; [|reflexivity].
    apply existsb_eqb_In in E. contradiction.
Qed.

Lemma addCat_same (newCat : string) (categories : list string) :
  trim newCat = "" \/ In (trim newCat) categories ->
  addCat newCat categories = categories.
Proof.
  intros H. unfold addCat. destruct (nonempty (trim newCat)) eqn:N;
    [|reflexivity].
  destruct H as [H|H].
  - apply nonempty_true in N. contradiction.
  - apply existsb_eqb_In in H. now rewrite H.
Qed.

Lemma addCat_new (newCat : string) (categories : list string) :
  trim newCat <> "" -> ~ In (trim newCat) categories ->
  addCat newCat categories = (categories ++ [trim newCat])%list.
Proof.
  intros N H. unfold addCat. apply nonempty_true in N.
  apply existsb_eqb_false in H. now rewrite N, H.
Qed.

(** X19.  [addCat] leaves the entries of the list in place and adds at
    most the trimmed text, at the end; it adds no entry that is empty and
    none that is in the list, so a list without an empty entry or without
    a repeated entry stays so; a second call with the same text changes
    nothing. *)
Theorem addCat_invariant (newCat : string) (categories : list string) :
  (addCat newCat categories = categories \/
   addCat newCat categories = (categories ++ [trim newCat])%list /\
   trim newCat <> "" /\ ~ In (trim newCat) categories) /\
  (NoDup categories -> NoDup (addCat newCat categories)) /\
  (Forall (fun c => c <> "") categories ->
   Forall (fun c => c <> "") (addCat newCat categories)) /\
  addCat newCat (addCat newCat categories) = addCat newCat categories.
Proof.
  destruct (String.string_dec (trim newCat) "") as [E|N].
  { rewrite !(addCat_same newCat categories (or_introl E)). auto. }
  destruct (in_dec String.string_dec (trim newCat) categories) as [I|I].
  { rewrite !(addCat_same newCat categories (or_intror I)). auto. }
  rewrite (addCat_new newCat categories N I).
  split; [right; auto|]. split; [|split].
  - intros H. apply NoDup_app; [exact H | repeat constructor; intros [] |].
    intros x Hx [<-|[]]. contradiction.
  - intros H. apply Forall_app. split; [exact H | now repeat constructor].
  - apply addCat_same. right. apply in_or_app. right. now left.
Qed.

Lemma drop_index_outside {A : Type} (idx : Z) (l : list A) :
  forall i, (idx < i \/ i + Z.of_nat (List.length l) <= idx)%Z ->
            drop_index idx i l = l.
Proof.
  induction l as [|x l IH]; intros i H; [reflexivity|].
  cbn [drop_index]. cbn [List.length] in H.
  destruct (Z.eqb_spec i idx) as [E|E]; [lia|].
  rewrite IH; [reflexivity | lia].
Qed.

Lemma drop_index_at {A : Type} (pre : list A) (x : A) (post : list A) :
  forall i, drop_index (i + Z.of_nat (List.length pre)) i (pre ++ x :: post)
            = (pre ++ post)%list.
Proof.
  induction pre as [|y pre IH]; intros i.
  - cbn [List.length app drop_index]. rewrite Z.add_0_r, Z.eqb_refl.
    apply drop_index_outside. lia.
  - cbn [List.length app drop_index].
    destruct (Z.eqb_spec i (i + Z.of_nat (S (List.length pre)))) as [E|E]; [lia|].
    f_equal.
    replace (i + Z.of_nat (S (List.length pre)))%Z
      with ((i + 1) + Z.of_nat (List.length pre))%Z by lia.
    apply IH.
Qed.

(** X20.  [remove] takes out the entry at the index given and keeps the
    others in order; with an index that is not one of the list, it leaves
    the list as it is. *)
Theorem remove_spec :
  (forall (pre : list string) (x : string) (post : list string),
      remove (Z.of_nat (List.length pre)) (pre ++ x :: post)
      = (pre ++ post)%list) /\
  (forall (idx : Z) (categories : list string),
      (idx < 0 \/ Z.of_nat (List.length categories) <= idx)%Z ->
      remove idx categories = categories).
Proof.
  split.
  - intros pre x post. unfold remove.
    apply (drop_index_at pre x post 0%Z).
  - intros idx categories H. unfold remove. apply drop_index_outside. lia.
Qed.

Lemma firstn_len_app {A : Type} (a b : list A) :
  firstn (List.length a) (a ++ b) = a.
Proof. induction a as [|x a IH]; simpl; [now destruct b | now rewrite IH]. Qed.

Lemma skipn_len_app {A : Type} (a b : list A) :
  skipn (List.length a) (a ++ b) = b.
Proof. induction a as [|x a IH]; simpl; [reflexivity | exact IH]. Qed.

Lemma splice_start_inside (k len : nat) :
  k <= len -> splice_start (Z.of_nat k) len = k.
Proof.
  intros H. unfold splice_start.
  destruct (Z.ltb_spec (Z.of_nat k) 0); [lia|].
  rewrite Z.min_l by lia. apply Nat2Z.id.
Qed.

Section MoveProperties.

Variable A : Type.
Variable undefined : A.

Lemma move_down (pre : list A) (a b : A) (post : list A) :
  move A undefined (Z.of_nat (List.length pre)) Down (pre ++ a :: b :: post)
  = (pre ++ b :: a :: post)%list.
Proof.
  unfold move. cbn [dir_value].
  rewrite length_app. cbn [List.length].
  destruct (Z.ltb_spec (Z.of_nat (List.length pre) + 1) 0); [lia|].
  destruct (Z.leb_spec (Z.of_nat (List.length pre + S (S (List.length post))))
                       (Z.of_nat (List.length pre) + 1)); [lia|].
  cbn [orb]. unfold splice_delete.
  rewrite length_app. cbn [List.length].
  rewrite splice_start_inside by lia.
  rewrite firstn_len_app, skipn_len_app.
  change (pre ++ a :: b :: post)%list with (pre ++ [a] ++ b :: post)%list.
  rewrite app_assoc.
  replace (S (List.length pre)) with (List.length (pre ++ [a]))
    by (rewrite length_app; simpl; lia).
  rewrite skipn_len_app. cbn [firstn hd].
  unfold splice_insert.
  replace (Z.of_nat (List.length pre) + 1)%Z
    with (Z.of_nat (List.length (pre ++ [b])))
    by (rewrite length_app; simpl; lia).
  rewrite splice_start_inside
    by (rewrite !length_app; simpl; lia).
  change (pre ++ b :: post)%list with (pre ++ [b] ++ post)%list.
  rewrite app_assoc, firstn_len_app, skipn_len_app.
  now rewrite <- app_assoc.
Qed.

Lemma move_up (pre : list A) (a b : A) (post : list A) :
  move A undefined (Z.of_nat (List.length pre) + 1) Up (pre ++ a :: b :: post)
  = (pre ++ b :: a :: post)%list.
Proof.
  unfold move. cbn [dir_value].
  rewrite length_app. cbn [List.length].
  replace (Z.of_nat (List.length pre) + 1 + -1)%Z
    with (Z.of_nat (List.length pre)) by lia.
  destruct (Z.ltb_spec (Z.of_nat (List.length pre)) 0); [lia|].
  destruct (Z.leb_spec (Z.of_nat (List.length pre + S (S (List.length post))))
                       (Z.of_nat (List.length pre))); [lia|].
  cbn [orb]. unfold splice_delete.
  rewrite length_app. cbn [List.length].
  replace (Z.of_nat (List.length pre) + 1)%Z
    with (Z.of_nat (List.length (pre ++ [a])))
    by (rewrite length_app; simpl; lia).
  rewrite splice_start_inside
    by (rewrite !length_app; simpl; lia).
  change (pre ++ a :: b :: post)%list with (pre ++ [a] ++ b :: post)%list.
  rewrite app_assoc, firstn_len_app, skipn_len_app.
  change ((pre ++ [a]) ++ b :: post)%list
    with ((pre ++ [a]) ++ [b] ++ post)%list.
  rewrite (app_assoc (pre ++ [a])).
  replace (S (List.length (pre ++ [a])))
    with (List.length ((pre ++ [a]) ++ [b]))
    by (rewrite !length_app; simpl; lia).
  rewrite skipn_len_app. cbn [firstn hd].
  unfold splice_insert.
  rewrite splice_start_inside
    by (rewrite !length_app; simpl; lia).
  rewrite <- (app_assoc pre [a] post).
  now rewrite firstn_len_app, skipn_len_app.
Qed.

(** X21.  [move] swaps the entry at the index with the one below it, or
    with the one above it, and leaves the other entries in place; when
    there is no entry on that side (the first entry up, the last one
    down), the list is left as it is. *)
Theorem move_swap :
  (forall (pre : list A) (a b : A) (post : list A),
      move A undefined (Z.of_nat (List.length pre)) Down (pre ++ a :: b :: post)
      = (pre ++ b :: a :: post)%list /\
      move A undefined (Z.of_nat (List.length pre) + 1) Up (pre ++ a :: b :: post)
      = (pre ++ b :: a :: post)%list) /\
  (forall (idx : Z) (dir : Dir) (l : list A),
      (idx + dir_value dir < 0 \/
       Z.of_nat (List.length l) <= idx + dir_value dir)%Z ->
      move A undefined idx dir l = l).
Proof.
  split.
  - intros pre a b post. split; [apply move_down | apply move_up].
  - intros idx dir l H. unfold move.
    destruct (Z.ltb_spec (idx + dir_value dir) 0) as [L|L]; [reflexivity|].
    destruct (Z.leb_spec (Z.of_nat (List.length l)) (idx + dir_value dir));
      [reflexivity | lia].
Qed.

(** X22.  Moving an entry down and then moving it up from where it went
    gives the list again. *)
Theorem move_back (pre : list A) (a b : A) (post : list A) :
  move A undefined (Z.of_nat (List.length pre) + 1) Up
    (move A undefined (Z.of_nat (List.length pre)) Down (pre ++ a :: b :: post))
  = (pre ++ a :: b :: post)%list /\
  move A undefined (Z.of_nat (List.length pre)) Down
    (move A undefined (Z.of_nat (List.length pre) + 1) Up (pre ++ a :: b :: post))
  = (pre ++ a :: b :: post)%list.
Proof.
  split.
  - rewrite move_down. apply move_up.
  - rewrite move_up. apply move_down.
Qed.

(** X23.  With an index just outside the list, [move] does not leave the
    list as it is: from the index before the first entry it brings the
    last entry to the front, and from the index after the last entry it
    puts the value [undefined] before the last entry. *)
Theorem move_outside (l : list A) (x : A) :
  move A undefined (-1) Down (l ++ [x]) = x :: l /\
  move A undefined (Z.of_nat (List.length (l ++ [x]))) Up (l ++ [x])
  = (l ++ [undefined; x])%list.
Proof.
  split.
  - unfold move. cbn [dir_value Z.add Z.ltb Z.compare Z.pos_sub orb].
    rewrite length_app. cbn [List.length].
    destruct (Z.leb_spec (Z.of_nat (List.length l + 1)) 0); [lia|].
    unfold splice_delete. rewrite length_app. cbn [List.length].
    assert (S1 : splice_start (-1) (List.length l + 1) = List.length l).
    { unfold splice_start. cbn [Z.ltb Z.compare]. lia. }
    rewrite S1, firstn_len_app, skipn_len_app. cbn [firstn hd].
    replace (S (List.length l)) with (List.length (l ++ [x]))
      by (rewrite length_app; simpl; lia).
    rewrite <- (app_nil_r (l ++ [x])) at 2. rewrite skipn_len_app, app_nil_r.
    unfold splice_insert.
    assert (S0 : splice_start 0 (List.length l) = 0)
      by (apply (splice_start_inside 0); lia).
    match goal with
    | |- context [splice_start ?z (List.length l)] =>
        change (splice_start z (List.length l))
          with (splice_start 0 (List.length l))
    end.
    rewrite S0. reflexivity.
  - unfold move. cbn [dir_value].
    set (n := List.length (l ++ [x])).
    assert (Hn : n = List.length l + 1)
      by (unfold n; rewrite length_app; reflexivity).
    destruct (Z.ltb_spec (Z.of_nat n + -1) 0); [lia|].
    destruct (Z.leb_spec (Z.of_nat n) (Z.of_nat n + -1)); [lia|].
    cbn [orb]. unfold splice_delete. fold n.
    rewrite splice_start_inside by lia.
    assert (F : firstn n (l ++ [x]) = (l ++ [x])%list).
    { unfold n. rewrite <- (app_nil_r (l ++ [x])) at 2. apply firstn_len_app. }
    assert (K : forall k, n <= k -> skipn k (l ++ [x]) = []).
    { intros k Hk. apply skipn_all2. now fold n. }
    rewrite F, (K n), (K (S n)), app_nil_r by lia. cbn [firstn hd].
    unfold splice_insert. fold n.
    replace (Z.of_nat n + -1)%Z with (Z.of_nat (List.length l)) by lia.
    rewrite splice_start_inside by lia.
    rewrite firstn_len_app, skipn_len_app. reflexivity.
Qed.

End MoveProperties.

(** ** Category normalizer, continued *)

(** X24.  The empty label is normalized to [Other].  Another label is
    normalized to the first entry of the list that equals its trimmed form
    up to case, in the casing of the list, and to its trimmed form when
    there is no such entry: so a label of white space alone gives the
    empty string, not [Other], unless the list has an empty entry. *)
Theorem normalizeCategory_spec (c : string) (categories : list string) :
  (c = "" -> normalizeCategory c categories = "Other") /\
  (c <> "" ->
   (forall pre found post,
       categories = (pre ++ found :: post)%list ->
       toLowerCase found = toLowerCase (trim c) ->
       Forall (fun x => toLowerCase x <> toLowerCase (trim c)) pre ->
       normalizeCategory c categories = found) /\
   (Forall (fun x => toLowerCase x <> toLowerCase (trim c)) categories ->
    normalizeCategory c categories = trim c)).
Proof.
  split; [intros ->; reflexivity|].
  intros Hc. unfold normalizeCategory. apply nonempty_true in Hc.
  rewrite Hc. cbn [negb]. split.
  - intros pre found post -> Hf Hpre.
    induction Hpre as [|x pre Hx _ IH]; cbn [app find].
    + apply String.eqb_eq in Hf. now rewrite Hf.
    + apply String.eqb_neq in Hx. now rewrite Hx.
  - intros H. induction H as [|x l Hx _ IH]; cbn [find]; [reflexivity|].
    apply String.eqb_neq in Hx. now rewrite Hx.
Qed.

(** ** The edit form *)

Lemma apply_edit_patch (form it : Item) :
  apply_patch (edit_patch form) it
  = mkItem (id it) (name form) (quantity form) (unit form) (category form)
           (notes form) (have it) (checked it) (createdAt it).
Proof. reflexivity. Qed.

Lemma same_id_same_item (items : list Item) (x y : Item) :
  NoDup (map id items) -> In x items -> In y items -> id x = id y -> x = y.
Proof.
  induction items as [|z items IH]; simpl; intros Hnd Hx Hy E; [contradiction|].
  inversion Hnd as [|? ? Hz Hnd']; subst.
  destruct Hx as [->|Hx], Hy as [->|Hy].
  - reflexivity.
  - exfalso. apply Hz. rewrite E. now apply in_map.
  - exfalso. apply Hz. rewrite <- E. now apply in_map.
  - now apply IH.
Qed.

(** X26.  Saving the edit form of an item gives the items of its
    identifier the name, quantity, unit, category and notes of the form
    and leaves their flags, identifier and time of creation; in a
    collection without a repeated identifier, saving the form of an item
    as it was opened leaves the collection as it is. *)
Theorem edit_save (form : Item) (items : list Item) :
  (forall it, In it items -> id it = id form ->
              In (mkItem (id it) (name form) (quantity form) (unit form)
                         (category form) (notes form) (have it) (checked it)
                         (createdAt it))
                 (updateItem (id form) (edit_patch form) items)) /\
  (NoDup (map id items) -> In form items ->
   updateItem (id form) (edit_patch form) items = items).
Proof.
  split.
  - intros it Hin E. unfold updateItem. apply in_map_iff. exists it.
    split; [|exact Hin]. apply String.eqb_eq in E. rewrite E.
    apply apply_edit_patch.
  - intros Hnd Hin. unfold updateItem.
    rewrite <- (map_id items) at 2. apply map_ext_in. intros x Hx.
    destruct (String.eqb_spec (id x) (id form)) as [E|E]; [|reflexivity].
    rewrite (same_id_same_item items x form Hnd Hx Hin E).
    rewrite apply_edit_patch. now destruct form.
Qed.
